(** * Session objects of better-sqlite3 (src/objects/session.cpp)

    A shallow embedding of the [Session] class: its constructor and
    destructor, [CloseHandles], and the four methods exposed to JavaScript
    ([attach], [enable], [changeset], [close]).

    Native objects live in a store indexed by their address.  Every call
    that leaves the class (into the SQLite engine, into the owning
    [Database], into the host's buffer factory) is appended to a
    chronological trace, so that "no engine call is made" and "A happens
    before B" are statements about that trace.  What the engine answers is
    an input of the method that asks. *)

From stdpp Require Import gmap strings list.
From Stdlib Require Import ZArith Lia.

Local Open Scope Z_scope.

(** ** Addresses and the calls that leave the class *)

(** Native pointers ([Session*], [Database*], [sqlite3_session*], [void*]). *)
Abbreviation addr := N.

Definition NULL : addr := 0%N.

Definition SQLITE_OK : Z := 0.

(** Calls into the SQLite library.  [zTab = None] is the C call with a
    [NULL] table name; [Some s] passes a C string that reads as [s]. *)
Inductive EngineCall : Type :=
| sqlite3session_attach (handle : addr) (zTab : option string)
| sqlite3session_enable (handle : addr) (bEnable : Z)
| sqlite3session_changeset (handle : addr)
| sqlite3session_delete (handle : addr)
| sqlite3_free (p : addr)
| sqlite3_errmsg (db_handle : addr)
| sqlite3_close (db_handle : addr).

(** Everything observable from outside the class, in the order it happens:
    engine calls, calls to the two registry methods of the owning
    connection, the request for a host byte array, and the C library's
    [free], which is how a byte array without a finalizer of its own would
    give its memory back. *)
Inductive Event : Type :=
| Engine (c : EngineCall)
| AddSession (database session : addr)
| RemoveSession (database session : addr)
| Buffer_New (data : addr) (size : Z)
| libc_free (p : addr).

Global Instance EngineCall_eq_dec : EqDecision EngineCall.
Proof. solve_decision. Defined.

Global Instance Event_eq_dec : EqDecision Event.
Proof. solve_decision. Defined.

(** ** Objects and the store *)

(** The fields of [class Session] (session.hpp). *)
Record Session : Type := mkSession {
  db : addr;
  session_handle : addr;
  id : N;
  alive : bool
}.

(** Modelled from the spec: the [Database] class is not part of the listed
    sources.  The spec gives it an open/closed state, a raw connection
    handle and "a collection of live sessions"; identities being unique,
    the collection is the set of the sessions' addresses. *)
Record Database : Type := mkDatabase {
  open : bool;
  db_handle : addr;
  sessions : gset addr
}.

(** The native objects by address, and the calls made so far. *)
Record World : Type := mkWorld {
  session_heap : gmap addr Session;
  database_heap : gmap addr Database;
  trace : list Event
}.

(** ** A state monad with failure

    [None] is a run with no defined outcome: the dereference of an address
    that holds no object, or a failed [assert]. *)
Definition M (A : Type) : Type := World → option (A * World).

Definition ret {A} (a : A) : M A := λ w, Some (a, w).

Definition bind {A B} (m : M A) (k : A → M B) : M B :=
  λ w, match m w with
       | Some (a, w') => k a w'
       | None => None
       end.

Notation "'let*' x ':=' m 'in' k" := (bind m (λ x, k))
  (at level 10, x name, m at level 100, k at level 200).
Notation "m '>>' k" := (bind m (λ _, k))
  (at level 100, k at level 200, right associativity).

(** A call that leaves the class is recorded at the end of the trace. *)
Definition call (e : Event) : M unit :=
  λ w, Some (tt, mkWorld (session_heap w) (database_heap w) (trace w ++ [e])).

Definition assertion (b : bool) : M unit :=
  λ w, if b then Some (tt, w) else None.

Definition read_session (p : addr) : M Session :=
  λ w, match session_heap w !! p with
       | Some s => Some (s, w)
       | None => None
       end.

Definition write_session (p : addr) (s : Session) : M unit :=
  λ w, Some (tt, mkWorld (<[p := s]> (session_heap w)) (database_heap w) (trace w)).

Definition read_database (p : addr) : M Database :=
  λ w, match database_heap w !! p with
       | Some d => Some (d, w)
       | None => None
       end.

Definition write_database (p : addr) (d : Database) : M unit :=
  λ w, Some (tt, mkWorld (session_heap w) (<[p := d]> (database_heap w)) (trace w)).

(** Run a list of actions in order. *)
Fixpoint for_each {A} (f : A → M unit) (l : list A) : M unit :=
  match l with
  | [] => ret tt
  | x :: l' => f x >> for_each f l'
  end.

(** ** The JavaScript side *)

(** A buffer finalizer: a C function of the data pointer and a hint. *)
Definition FreeCallback : Type := addr → addr → M unit.

Inductive JsValue : Type :=
| JsUndefined
| JsNull
| JsBoolean (b : bool)
| JsNumber (n : Z)
| JsString (s : string)
| JsObject (wrapped : addr)
| JsBuffer (data : addr) (size : Z) (finalizer : FreeCallback) (hint : addr).

Inductive Exception : Type :=
| TypeError (message : string)
| Error (message : string)
| SqliteError (db_handle : addr).

(** How a native method ends: a return value (undefined unless set) or a
    pending exception. *)
Inductive Completion : Type :=
| Return (v : JsValue)
| Throw (e : Exception).

(** [v8::FunctionCallbackInfo]: the receiver, unwrapped to the address of
    the native object it wraps, and the arguments. *)
Record FunctionCallbackInfo : Type := mkInfo {
  This : addr;
  Args : list JsValue
}.

Definition Length (info : FunctionCallbackInfo) : Z := Z.of_nat (length (Args info)).

(** [info[i]]; V8 yields undefined beyond the last argument. *)
Definition arg (info : FunctionCallbackInfo) (i : nat) : JsValue :=
  default JsUndefined (Args info !! i).

Definition IsNullOrUndefined (v : JsValue) : bool :=
  match v with JsUndefined | JsNull => true | _ => false end.

Definition IsString (v : JsValue) : bool :=
  match v with JsString _ => true | _ => false end.

Definition IsBoolean (v : JsValue) : bool :=
  match v with JsBoolean _ => true | _ => false end.

(** [v->BooleanValue(isolate)]: JavaScript truthiness. *)
Definition BooleanValue (v : JsValue) : bool :=
  match v with
  | JsUndefined | JsNull => false
  | JsBoolean b => b
  | JsNumber n => negb (n =? 0)
  | JsString s => negb (String.eqb s "")
  | JsObject _ | JsBuffer _ _ _ _ => true
  end.

(** The text held by a [v8::String::Utf8Value]; used on strings only. *)
Definition Utf8Value (v : JsValue) : string :=
  match v with JsString s => s | _ => "" end.

(** [*utf8]: the [const char*] into that text.  Whoever is given it reads
    a C string, which ends at the first NUL character of the text. *)
Fixpoint c_str (s : string) : string :=
  match s with
  | EmptyString => EmptyString
  | String c rest => if Ascii.eqb c Ascii.zero then EmptyString else String c (c_str rest)
  end.

Definition ThrowTypeError (message : string) : M Completion :=
  ret (Throw (TypeError message)).

Definition ThrowError (message : string) : M Completion :=
  ret (Throw (Error message)).

(** ** The owning connection *)

(** Modelled from the spec: [Database::AddSession] is not part of the
    listed sources; the spec has the session register itself with "the
    connection's registry". *)
Definition Database_AddSession (d session : addr) : M unit :=
  let* dbo := read_database d in
  call (AddSession d session) >>
  write_database d (mkDatabase (open dbo) (db_handle dbo) (sessions dbo ∪ {[session]})).

(** Modelled from the spec: [Database::RemoveSession] is not part of the
    listed sources; the spec has a closing session "remove itself from the
    owning connection's registry". *)
Definition Database_RemoveSession (d session : addr) : M unit :=
  let* dbo := read_database d in
  call (RemoveSession d session) >>
  write_database d (mkDatabase (open dbo) (db_handle dbo) (sessions dbo ∖ {[session]})).

(** Modelled from the spec: [Database::ThrowDatabaseError] is not part of
    the listed sources; an engine error is "surfaced by retrieving and
    propagating the engine's current error text". *)
Definition Database_ThrowDatabaseError (d : addr) : M Completion :=
  let* dbo := read_database d in
  call (Engine (sqlite3_errmsg (db_handle dbo))) >>
  ret (Throw (SqliteError (db_handle dbo))).

(** Modelled from the spec: the text of the usage error raised on a
    connection that is not open; the spec fixes its kind only. *)
Definition database_not_open : string := "The database connection is not open".

(** Modelled from the spec: the macro [REQUIRE_DATABASE_OPEN] is not part
    of the listed sources; an "operation invoked while the connection is
    not open" is a usage error "detected before touching the engine".  The
    macro returns from the enclosing method, so the rest of the method is
    its continuation. *)
Definition REQUIRE_DATABASE_OPEN (d : addr) (rest : M Completion) : M Completion :=
  let* dbo := read_database d in
  if negb (open dbo) then ThrowTypeError database_not_open else rest.

(** Modelled from the spec: the macro [SAFE_NEW_BUFFER] is not part of the
    listed sources.  It asks the host for a byte array over [data] whose
    reclamation runs [finalizer data hint]; the host either builds it or
    yields an empty handle ([built] is the host's answer), and on failure
    leaves the release of [data] to the caller. *)
Definition SAFE_NEW_BUFFER (built : bool) (data : addr) (size : Z)
    (finalizer : FreeCallback) (hint : addr) : M (option JsValue) :=
  call (Buffer_New data size) >>
  ret (if built then Some (JsBuffer data size finalizer hint) else None).

(** ** session.cpp *)

(** [Session::Session], lines 1-14: the fields are initialised at [this],
    the two pointers are asserted non-NULL, and the session registers
    itself. *)
Definition Session_ctor (this d handle : addr) (ident : N) : M unit :=
  write_session this (mkSession d handle ident true) >>
  assertion (negb (d =? NULL)%N) >>
  assertion (negb (handle =? NULL)%N) >>
  Database_AddSession d this.

(** [Session::CloseHandles], lines 22-27. *)
Definition Session_CloseHandles (this : addr) : M unit :=
  let* s := read_session this in
  if alive s then
    write_session this (mkSession (db s) (session_handle s) (id s) false) >>
    call (Engine (sqlite3session_delete (session_handle s)))
  else ret tt.

(** [Session::~Session], lines 16-19. *)
Definition Session_dtor (this : addr) : M unit :=
  let* s := read_session this in
  (if alive s then Database_RemoveSession (db s) this else ret tt) >>
  Session_CloseHandles this.

Definition session_closed : string := "The session has been closed".

(** [Session::JS_attach], lines 67-94.  [status] is what
    [sqlite3session_attach] returns. *)
Definition JS_attach (status : Z) (info : FunctionCallbackInfo) : M Completion :=
  let* session := read_session (This info) in
  if negb (alive session) then ThrowTypeError session_closed else
  REQUIRE_DATABASE_OPEN (db session) (
    if (0 <? Length info) && negb (IsNullOrUndefined (arg info 0)) then
      if negb (IsString (arg info 0)) then
        ThrowTypeError "Expected first argument to be a string or null"
      else
        let table_name := c_str (Utf8Value (arg info 0)) in
        call (Engine (sqlite3session_attach (session_handle session) (Some table_name))) >>
        if negb (status =? SQLITE_OK) then Database_ThrowDatabaseError (db session)
        else ret (Return JsUndefined)
    else
      call (Engine (sqlite3session_attach (session_handle session) None)) >>
      if negb (status =? SQLITE_OK) then Database_ThrowDatabaseError (db session)
      else ret (Return JsUndefined)).

(** [Session::JS_enable], lines 96-112. *)
Definition JS_enable (info : FunctionCallbackInfo) : M Completion :=
  let* session := read_session (This info) in
  if negb (alive session) then ThrowTypeError session_closed else
  REQUIRE_DATABASE_OPEN (db session) (
    if (Length info <? 1) || negb (IsBoolean (arg info 0)) then
      ThrowTypeError "Expected first argument to be a boolean"
    else
      let enable_flag := if BooleanValue (arg info 0) then 1 else 0 in
      call (Engine (sqlite3session_enable (session_handle session) enable_flag)) >>
      ret (Return JsUndefined)).

(** [FreeSqliteMemory], lines 114-117. *)
Definition FreeSqliteMemory : FreeCallback :=
  λ data hint, call (Engine (sqlite3_free data)).

(** What [sqlite3session_changeset] answers: its status and what it stored
    through the two out-parameters. *)
Record ChangesetReply : Type := mkReply {
  reply_status : Z;
  reply_size : Z;
  reply_buffer : addr
}.

(** [Session::JS_changeset], lines 119-158.  [built] is the host's answer
    to [SAFE_NEW_BUFFER]. *)
Definition JS_changeset (reply : ChangesetReply) (built : bool)
    (info : FunctionCallbackInfo) : M Completion :=
  let* session := read_session (This info) in
  if negb (alive session) then ThrowTypeError session_closed else
  REQUIRE_DATABASE_OPEN (db session) (
    call (Engine (sqlite3session_changeset (session_handle session))) >>
    let status := reply_status reply in
    let size := reply_size reply in
    let buffer := reply_buffer reply in
    if negb (status =? SQLITE_OK) then Database_ThrowDatabaseError (db session)
    else if (buffer =? NULL)%N || (size =? 0) then
      (if negb (buffer =? NULL)%N then call (Engine (sqlite3_free buffer)) else ret tt) >>
      ret (Return JsUndefined)
    else
      let* result := SAFE_NEW_BUFFER built buffer size FreeSqliteMemory NULL in
      match result with
      | None =>
          call (Engine (sqlite3_free buffer)) >>
          ThrowError "Failed to create buffer for changeset"
      | Some v => ret (Return v)
      end).

(** [Session::JS_close], lines 160-167. *)
Definition JS_close (info : FunctionCallbackInfo) : M Completion :=
  let* session := read_session (This info) in
  (if alive session then
     Database_RemoveSession (db session) (This info) >>
     Session_CloseHandles (This info)
   else ret tt) >>
  ret (Return (JsObject (This info))).

(** Modelled from the spec: [Database::CloseHandles], the shutdown of the
    connection, is not part of the listed sources.  "The connection must
    force-close all registered sessions before releasing its own
    resources", each by the same "registry removal, then resource release". *)
Definition Database_CloseHandles (d : addr) : M unit :=
  let* dbo := read_database d in
  if open dbo then
    for_each (λ s, Database_RemoveSession d s >> Session_CloseHandles s)
             (elements (sessions dbo)) >>
    let* dbo' := read_database d in
    write_database d (mkDatabase false (db_handle dbo') (sessions dbo')) >>
    call (Engine (sqlite3_close (db_handle dbo')))
  else ret tt.

(** * Vocabulary of the statements *)

(** [w] after the calls [evs], objects untouched. *)
Definition log (w : World) (evs : list Event) : World :=
  mkWorld (session_heap w) (database_heap w) (trace w ++ evs).

(** The host reclaiming a value: a byte array runs its finalizer on its
    data, nothing else has one. *)
Definition finalize (v : JsValue) : M unit :=
  match v with
  | JsBuffer data _ finalizer hint => finalizer data hint
  | _ => ret tt
  end.

Definition is_engine_error (e : Exception) : bool :=
  match e with SqliteError _ => true | _ => false end.

(** The session that is the receiver of a call, and its connection. *)
Definition receiver (w : World) (info : FunctionCallbackInfo) (s : Session) : Prop :=
  session_heap w !! This info = Some s.

Definition connection (w : World) (s : Session) (d : Database) : Prop :=
  database_heap w !! db s = Some d.

(** [n] calls of the same method in a row, with what each returned. *)
Fixpoint repeat_call (n : nat) (m : M Completion) : M (list Completion) :=
  match n with
  | O => ret []
  | S n' => let* r := m in let* rs := repeat_call n' m in ret (r :: rs)
  end.

(** The receiver is an alive session of an open connection. *)
Definition usable (w : World) (info : FunctionCallbackInfo) (s : Session) (d : Database) : Prop :=
  receiver w info s ∧ connection w s d ∧ alive s = true ∧ open d = true.

(** The text has a NUL character in it. *)
Fixpoint contains_NUL (s : string) : bool :=
  match s with
  | EmptyString => false
  | String c rest => Ascii.eqb c Ascii.zero || contains_NUL rest
  end.

(** ** What the methods leave behind *)

(** What attach does once it has reached the engine with table [zTab]. *)
Definition attached (w : World) (s : Session) (d : Database)
    (status : Z) (zTab : option string) : Completion * World :=
  if decide (status = SQLITE_OK) then
    (Return JsUndefined,
     log w [Engine (sqlite3session_attach (session_handle s) zTab)])
  else
    (Throw (SqliteError (db_handle d)),
     log w [Engine (sqlite3session_attach (session_handle s) zTab);
            Engine (sqlite3_errmsg (db_handle d))]).

(** The session object once its flag is down. *)
Definition dead (s : Session) : Session :=
  mkSession (db s) (session_handle s) (id s) false.

(** The world after [session] has left the registry of the connection at [d]. *)
Definition unregistered (d : addr) (dbo : Database) (session : addr) (w : World) : World :=
  mkWorld (session_heap w)
          (<[d := mkDatabase (open dbo) (db_handle dbo) (sessions dbo ∖ {[session]})]>
             (database_heap w))
          (trace w ++ [RemoveSession d session]).

(** The world after the alive session [s] at [this] has closed its handle. *)
Definition released (this : addr) (s : Session) (w : World) : World :=
  mkWorld (<[this := dead s]> (session_heap w))
          (database_heap w)
          (trace w ++ [Engine (sqlite3session_delete (session_handle s))]).

(** [session] is in the registry of the connection at [d]. *)
Definition registered (w : World) (d session : addr) : Prop :=
  ∃ dbo, database_heap w !! d = Some dbo ∧ session ∈ sessions dbo.

(** ** The order of a close *)

(** The two steps of closing the session at [this], with the world [mid]
    in between: first the registry removal, which leaves the session alive
    and its handle untouched, then [CloseHandles], which lowers the flag
    and deletes the handle. *)
Definition removed_then_released (this : addr) (s : Session) (w w' : World) : Prop :=
  ∃ mid,
    Database_RemoveSession (db s) this w = Some (tt, mid) ∧
    ¬ registered mid (db s) this ∧
    session_heap mid !! this = Some s ∧
    trace mid = trace w ++ [RemoveSession (db s) this] ∧
    Session_CloseHandles this mid = Some (tt, w') ∧
    session_heap w' !! this = Some (dead s) ∧
    trace w' = trace mid ++ [Engine (sqlite3session_delete (session_handle s))].

(** The same, for a list of sessions one after the other. *)
Inductive each_removed_then_released : list addr → World → World → Prop :=
| closed_none w : each_removed_then_released [] w w
| closed_next this s l w w1 w2 :
    session_heap w !! this = Some s →
    alive s = true →
    removed_then_released this s w w1 →
    each_removed_then_released l w1 w2 →
    each_removed_then_released (this :: l) w w2.

(** Every session in the registry of the connection [dbo] at [d] is an
    alive session of that connection. *)
Definition registry_alive (w : World) (d : addr) (dbo : Database) : Prop :=
  ∀ q, q ∈ sessions dbo →
    ∃ t, session_heap w !! q = Some t ∧ alive t = true ∧ db t = d.

(** ** Sequences of operations *)

(** What can happen to the objects: the four methods, the destructor, a
    direct [CloseHandles] from the owner, and the connection's shutdown. *)
Inductive Op : Type :=
| call_attach (status : Z) (info : FunctionCallbackInfo)
| call_enable (info : FunctionCallbackInfo)
| call_changeset (reply : ChangesetReply) (built : bool) (info : FunctionCallbackInfo)
| call_close (info : FunctionCallbackInfo)
| destroy (this : addr)
| close_handles (this : addr)
| shut_down (d : addr).

Definition exec (o : Op) : M unit :=
  match o with
  | call_attach status info => JS_attach status info >> ret tt
  | call_enable info => JS_enable info >> ret tt
  | call_changeset reply built info => JS_changeset reply built info >> ret tt
  | call_close info => JS_close info >> ret tt
  | destroy this => Session_dtor this
  | close_handles this => Session_CloseHandles this
  | shut_down d => Database_CloseHandles d
  end.

Definition run (ops : list Op) : M unit := for_each exec ops.

(** The operation is applied to an object that exists. *)
Definition targets (w : World) (o : Op) : Prop :=
  match o with
  | call_attach _ info | call_enable info | call_changeset _ _ info | call_close info =>
      is_Some (session_heap w !! This info)
  | destroy this | close_handles this => is_Some (session_heap w !! this)
  | shut_down d => is_Some (database_heap w !! d)
  end.

(** How many times the trace deletes the session handle [h]. *)
Definition releases (h : addr) (t : list Event) : nat :=
  count_occ Event_eq_dec t (Engine (sqlite3session_delete h)).

Definition is_release (e : Event) : bool :=
  match e with Engine (sqlite3session_delete _) => true | _ => false end.

(** The worlds the operations run in: no handle deleted twice so far, the
    handle of an alive session never deleted, alive sessions hold different
    handles, an alive session's connection exists, and so does every session
    a registry lists.  A handle names one allocation of the engine, not the
    address it happens to sit at. *)
Record consistent (w : World) : Prop := mkConsistent {
  released_once : ∀ h, (releases h (trace w) ≤ 1)%nat;
  alive_unreleased : ∀ p s,
    session_heap w !! p = Some s → alive s = true →
    releases (session_handle s) (trace w) = 0%nat;
  alive_handles_differ : ∀ p q s t,
    session_heap w !! p = Some s → session_heap w !! q = Some t →
    alive s = true → alive t = true →
    session_handle s = session_handle t → p = q;
  alive_has_connection : ∀ p s,
    session_heap w !! p = Some s → alive s = true →
    is_Some (database_heap w !! db s);
  registered_exists : ∀ d dbo p,
    database_heap w !! d = Some dbo → p ∈ sessions dbo →
    is_Some (session_heap w !! p)
}.

(** A session object is left alone or goes from alive to dead. *)
Definition session_step (s s' : Session) : Prop :=
  s' = s ∨ (alive s = true ∧ s' = dead s).

Definition database_step (dbo dbo' : Database) : Prop :=
  db_handle dbo' = db_handle dbo ∧ sessions dbo' ⊆ sessions dbo.

(** [w'] comes after [w]: the same objects exist, sessions only go from
    alive to dead, registries only shrink, and a handle is deleted between
    the two only if its session was alive in [w] and is dead in [w']. *)
Record grows (w w' : World) : Prop := mkGrows {
  sessions_step : ∀ p,
    option_Forall2 session_step (session_heap w !! p) (session_heap w' !! p);
  databases_step : ∀ d,
    option_Forall2 database_step (database_heap w !! d) (database_heap w' !! d);
  release_flips : ∀ h,
    releases h (trace w') ≠ releases h (trace w) →
    ∃ p s, session_heap w !! p = Some s ∧ session_handle s = h ∧
           alive s = true ∧ session_heap w' !! p = Some (dead s)
}.

(** A step that touches no session and deletes no handle. *)
Definition quiet (w w' : World) : Prop :=
  session_heap w' = session_heap w ∧
  (∀ d, option_Forall2 database_step (database_heap w !! d) (database_heap w' !! d)) ∧
  ∃ evs, trace w' = trace w ++ evs ∧ Forall (λ e, is_release e = false) evs.

(** ** Two sentences of the spec, as worded *)

(** C2 as the spec words it: attach with no argument, or with the string
    "all", asks the engine for every table (its first call passes no table
    name). *)
Definition attach_all_is_wildcard : Prop :=
  ∀ w info s d status,
    usable w info s d →
    Args info = [] ∨ Args info = [JsString "all"] →
    ∃ r w' later,
      JS_attach status info w = Some (r, w') ∧
      trace w' =
        trace w ++ Engine (sqlite3session_attach (session_handle s) None) :: later.

(** C3 as the spec words it: with an argument list that is not exactly one
    boolean, enable ends with a usage error and the world is unchanged. *)
Definition enable_needs_exactly_one_boolean : Prop :=
  ∀ w info s d,
    usable w info s d →
    (∀ b, Args info ≠ [JsBoolean b]) →
    ∃ message, JS_enable info w = Some (Throw (TypeError message), w).

(** ** Concrete worlds *)

(** A connection at address 10 with one session at address 1 (engine
    handle 7), as the constructor leaves them. *)
Definition one_database : World :=
  mkWorld ∅ {[ 10%N := mkDatabase true 100%N ∅ ]} [].

Definition one_session : World :=
  match Session_ctor 1%N 10%N 7%N 0%N one_database with
  | Some (_, w) => w
  | None => one_database
  end.

Definition the_session : Session := mkSession 10%N 7%N 0%N true.

Definition the_database : Database := mkDatabase true 100%N {[ 1%N ]}.

(** [one_session] after close(). *)
Definition closed_session : World :=
  match JS_close (mkInfo 1%N []) one_session with
  | Some (_, w) => w
  | None => one_session
  end.

Definition the_closed_session : Session := mkSession 10%N 7%N 0%N false.

(** Two sessions on one connection, as two constructor calls leave them. *)
Definition two_sessions : World :=
  mkWorld (<[2%N := mkSession 10%N 8%N 1%N true]> {[ 1%N := the_session ]})
          {[ 10%N := mkDatabase true 100%N {[ 1%N; 2%N ]} ]}
          [AddSession 10%N 1%N; AddSession 10%N 2%N].

(** The text "a", a NUL character, "b". *)
Definition a_NUL_b : string := String.append "a" (String Ascii.zero "b").

(** An alive session whose connection is already marked closed. *)
Definition connection_closed_first : World :=
  mkWorld {[ 1%N := the_session ]} {[ 10%N := mkDatabase false 100%N {[ 1%N ]} ]} [].

(** Close one session twice, shut the connection down, destroy both. *)
Definition teardown : list Op :=
  [call_close (mkInfo 1%N []); call_close (mkInfo 1%N []); shut_down 10%N;
   destroy 2%N; destroy 1%N].

(** * Further vocabulary *)

(** ** session.hpp *)

(** [Session::Compare], session.hpp lines 9-12: the order of the
    containers that hold sessions. *)
Definition Compare (a b : Session) : bool := (id a <? id b)%N.

(** Neither session comes before the other: what an ordered container
    takes for the same element. *)
Definition equivalent (a b : Session) : Prop :=
  Compare a b = false ∧ Compare b a = false.

(** ** What a call may append to the trace *)

(** The session handle an engine call works on, for the calls that need a
    live handle. *)
Definition uses (e : Event) : option addr :=
  match e with
  | Engine (sqlite3session_attach h _)
  | Engine (sqlite3session_enable h _)
  | Engine (sqlite3session_changeset h) => Some h
  | _ => None
  end.

(** The events attach, enable and changeset can cause on the session with
    handle [h]: session calls on [h] itself, the release of a buffer, the
    request for a byte array, the fetch of the error text. *)
Definition query_event (h : addr) (e : Event) : bool :=
  match e with
  | Engine (sqlite3session_attach h' _)
  | Engine (sqlite3session_enable h' _)
  | Engine (sqlite3session_changeset h') => (h' =? h)%N
  | Engine (sqlite3_free _) | Engine (sqlite3_errmsg _) | Buffer_New _ _ => true
  | Engine (sqlite3session_delete _) | Engine (sqlite3_close _)
  | AddSession _ _ | RemoveSession _ _ | libc_free _ => false
  end.

(** How many times the trace hands [p] to [sqlite3_free]. *)
Definition frees (p : addr) (t : list Event) : nat :=
  count_occ Event_eq_dec t (Engine (sqlite3_free p)).

(** Whether the method ended by returning a byte array over [p] (1) or
    not (0). *)
Definition hands_over (r : Completion) (p : addr) : nat :=
  match r with
  | Return (JsBuffer data _ _ _) => if decide (data = p) then 1%nat else 0%nat
  | _ => 0%nat
  end.

(** In a trace, a session call on a handle never comes after the deletion
    of that handle. *)
Definition no_use_after_release (t : list Event) : Prop :=
  ∀ before e after h,
    t = before ++ e :: after → uses e = Some h → releases h before = 0%nat.

(** ** The registry and the flags *)

(** The registries list exactly the alive sessions, each in the registry
    of its own connection. *)
Record registry_agrees (w : World) : Prop := mkRegistryAgrees {
  alive_registered : ∀ p s,
    session_heap w !! p = Some s → alive s = true → registered w (db s) p;
  registered_alive : ∀ d dbo p,
    database_heap w !! d = Some dbo → p ∈ sessions dbo →
    ∃ s, session_heap w !! p = Some s ∧ alive s = true ∧ db s = d
}.

(** The operations that keep to the rule stated above [CloseHandles] in
    the source (remove the session from the registry beforehand): all but
    the bare call of [CloseHandles]. *)
Definition keeps_protocol (o : Op) : bool :=
  match o with close_handles _ => false | _ => true end.

(** [handle] is not in use: no alive session holds it, and the trace never
    deleted it. *)
Definition fresh_handle (w : World) (handle : addr) : Prop :=
  releases handle (trace w) = 0%nat ∧
  ∀ q t, session_heap w !! q = Some t → alive t = true → session_handle t ≠ handle.

(** The outcome of a method that only observes the session [s]: it
    returns, the objects are as before, and the trace has grown by events
    that attach, enable and changeset may cause on the handle of [s], none
    at all if [s] is closed. *)
Definition observes (w : World) (s : Session) (out : option (Completion * World)) : Prop :=
  ∃ r evs,
    out = Some (r, log w evs) ∧
    forallb (query_event (session_handle s)) evs = true ∧
    (alive s = false → evs = []).

(** ** The steps of the connection's shutdown *)

(** The world after the shutdown loop has dealt with the session [t] at
    [q]: out of the registry, and closed if it was alive. *)
Definition step_world (d : addr) (dbo : Database) (q : addr) (t : Session) (w : World) : World :=
  if alive t then released q t (unregistered d dbo q w) else unregistered d dbo q w.

(** The world after the connection [dbo] at [d] has been marked closed and
    released. *)
Definition shut_world (d : addr) (dbo : Database) (w : World) : World :=
  mkWorld (session_heap w)
          (<[d := mkDatabase false (db_handle dbo) (sessions dbo)]> (database_heap w))
          (trace w ++ [Engine (sqlite3_close (db_handle dbo))]).


(** ** The constructor as JavaScript calls it *)

(** Modelled from the spec: the addon object is not part of the listed
    sources.  Of it, [JS_new] reads [privileged_info], the pending call of
    the connection's method that alone may construct sessions (absent at any
    other time), and draws identities, "a monotonically increasing unsigned
    integer", from its counter. *)
Record Addon : Type := mkAddon {
  privileged_info : option FunctionCallbackInfo;
  next_id : N
}.

(** Identities are [sqlite3_uint64] (session.hpp line 31). *)
Definition UINT64_MODULUS : N := (2 ^ 64)%N.

(** Modelled from the spec: [Addon::NextId] is not part of the listed
    sources; it yields the counter and advances it by one, in 64-bit
    unsigned arithmetic. *)
Definition NextId (addon : Addon) : N * Addon :=
  (next_id addon,
   mkAddon (privileged_info addon) ((next_id addon + 1) mod UINT64_MODULUS)%N).

(** The two calls of [JS_new] that leave the class and have no place in
    [Event]: the creation of the engine's session object on a connection
    handle for a schema name ([zDb = None] is a [NULL] pointer, [Some s] a C
    string that reads as [s]), and the host call that stores the connection
    object on the new session object as a frozen property. *)
Inductive ConstructionCall : Type :=
| sqlite3session_create (db_handle : addr) (zDb : option string)
| SetFrozen (object : addr) (value : JsValue).

(** What [sqlite3session_create] answers: its status and the handle it
    stored through the out-parameter. *)
Record CreateReply : Type := mkCreateReply {
  create_status : Z;
  create_handle : addr
}.

(** [v8::String::Utf8Value] built from any value, as line 50 does after
    the unchecked cast of line 47: a string gives its text; any other value
    is first converted by the host, and [converted] is what that conversion
    yields, nothing when it fails and the [Utf8Value] stays empty. *)
Definition Utf8Value_of (converted : option string) (v : JsValue) : option string :=
  match v with
  | JsString _ => Some (Utf8Value v)
  | _ => converted
  end.

(** [*db_name]: [NULL] for an empty [Utf8Value], else the C string into
    its text. *)
Definition c_str_of (text : option string) : option string := c_str <$> text.

(** Modelled from the spec: the text of the usage error raised on a busy
    connection; the spec fixes its kind only. *)
Definition database_busy : string :=
  "This database connection is busy executing a query".

(** [Session::JS_new], lines 38-65.  Beside the completion it yields the
    addon as the call leaves it and the construction calls it made.
    [is_construct_call] is [info.IsConstructCall()]; [busy] is what the
    connection's state reports (the macro [REQUIRE_DATABASE_NOT_BUSY], like
    [REQUIRE_DATABASE_OPEN], is not part of the listed sources and is
    modelled from the spec as a usage error); [converted] is the host's
    conversion of the schema name, should it not be a string; [reply] is the
    engine's answer; [this] is the address [new] places the session at,
    which is also the object [info.This()] wraps from then on.  The static
    [Database::ThrowSqliteError] on the connection's handle is
    [Database_ThrowDatabaseError]. *)
Definition JS_new (addon : Addon) (is_construct_call busy : bool)
    (converted : option string) (reply : CreateReply) (this : addr)
    : M (Completion * Addon * list ConstructionCall) :=
  match privileged_info addon with
  | None => ret (Throw (TypeError "Disabled constructor"), addon, [])
  | Some privileged =>
      assertion is_construct_call >>
      let d := This privileged in
      let* dbo := read_database d in
      if negb (open dbo) then ret (Throw (TypeError database_not_open), addon, [])
      else if busy then ret (Throw (TypeError database_busy), addon, [])
      else
        let database := arg privileged 0 in
        let db_name := Utf8Value_of converted (arg privileged 1) in
        let create := sqlite3session_create (db_handle dbo) (c_str_of db_name) in
        if negb (create_status reply =? SQLITE_OK) then
          let* thrown := Database_ThrowDatabaseError d in
          ret (thrown, addon, [create])
        else
          let session_id := NextId addon in
          Session_ctor this d (create_handle reply) (fst session_id) >>
          ret (Return (JsObject this), snd session_id,
               [create; SetFrozen this database])
  end.

(** The construction calls of a run of [JS_new]. *)
Definition calls_made {A} (out : option (A * list ConstructionCall * World))
    : option (list ConstructionCall) :=
  match out with
  | Some (_, calls, _) => Some calls
  | None => None
  end.

(** The call [database.session(name)] pending on the connection at [d],
    as [privileged_info] holds it. *)
Definition privileged_call (d : addr) (name : string) : FunctionCallbackInfo :=
  mkInfo d [JsObject d; JsString name].

(** An addon in the middle of such a call, with its counter at [n]. *)
Definition constructing (d : addr) (name : string) (n : N) : Addon :=
  mkAddon (Some (privileged_call d name)) n.

(** * Proofs *)

(** ** Evaluating a method *)

(** Unfold a method down to the store. *)
Ltac unfold_method :=
  unfold JS_attach, JS_enable, JS_changeset, JS_close, Session_dtor,
    REQUIRE_DATABASE_OPEN, Database_ThrowDatabaseError, SAFE_NEW_BUFFER,
    ThrowTypeError, ThrowError, receiver, connection in *;
  unfold bind, ret, read_session, read_database.

(** Then evaluate it along the equations known about the world. *)
Ltac evaluate_method :=
  unfold_method; cbn;
  repeat match goal with
         | H : _ = _ |- _ => rewrite H; cbn
         end.

Lemma one_session_usable args :
  usable one_session (mkInfo 1%N args) the_session the_database.
Proof. by repeat split. Qed.

(** ** Operations on a closed session *)

(** C6: on a session whose liveness flag is false, attach, enable and
    changeset each end with the "closed" type error and leave the world as
    it was: no engine call in the trace, no object changed. *)
Theorem closed_session_rejects_operations w info s :
  receiver w info s →
  alive s = false →
  (∀ status, JS_attach status info w = Some (Throw (TypeError session_closed), w)) ∧
  JS_enable info w = Some (Throw (TypeError session_closed), w) ∧
  (∀ reply built,
      JS_changeset reply built info w = Some (Throw (TypeError session_closed), w)).
Proof.
  intros Hs Hdead.
  repeat split; intros; by evaluate_method.
Qed.

Lemma closed_session_rejects_operations_witness :
  JS_enable (mkInfo 1%N [JsBoolean true]) closed_session =
    Some (Throw (TypeError session_closed), closed_session).
Proof.
  apply (closed_session_rejects_operations closed_session (mkInfo 1%N [JsBoolean true])
           the_closed_session); reflexivity.
Defined.

(** ** attach *)

Lemma attach_status_cases w s d status zTab :
  connection w s d →
  (call (Engine (sqlite3session_attach (session_handle s) zTab)) >>
   if negb (status =? SQLITE_OK) then Database_ThrowDatabaseError (db s)
   else ret (Return JsUndefined)) w = Some (attached w s d status zTab).
Proof.
  intros Hd. unfold attached, bind, call; cbn.
  destruct (Z.eqb_spec status SQLITE_OK) as [->|Hne]; cbn.
  - by rewrite decide_True.
  - rewrite decide_False by done.
    unfold Database_ThrowDatabaseError, bind, read_database, call, ret; cbn.
    unfold connection in Hd. rewrite Hd. cbn. unfold log; cbn.
    by rewrite <- app_assoc.
Qed.

(** C9: on an alive session of an open connection, a first argument that
    is neither a string nor null/undefined ends attach with a type error,
    and the world is unchanged, so no engine call was made. *)
Theorem attach_rejects_non_string w info s d status a rest :
  receiver w info s →
  connection w s d →
  alive s = true →
  open d = true →
  Args info = a :: rest →
  IsString a = false →
  IsNullOrUndefined a = false →
  JS_attach status info w =
    Some (Throw (TypeError "Expected first argument to be a string or null"), w).
Proof.
  intros Hs Hd Halive Hopen Hargs Hstr Hnull.
  assert (Hlen : (0 <? Length info) = true).
  { apply Z.ltb_lt. unfold Length. rewrite Hargs. cbn [length]. lia. }
  assert (Harg : arg info 0 = a) by (unfold arg; by rewrite Hargs).
  by evaluate_method.
Qed.

Lemma attach_rejects_non_string_witness :
  JS_attach SQLITE_OK (mkInfo 1%N [JsNumber 5]) one_session =
    Some (Throw (TypeError "Expected first argument to be a string or null"), one_session).
Proof.
  apply (attach_rejects_non_string one_session (mkInfo 1%N [JsNumber 5]) the_session
           the_database SQLITE_OK (JsNumber 5) []); reflexivity.
Defined.

Example attach_all_trace :
  JS_attach SQLITE_OK (mkInfo 1%N [JsString "all"]) one_session =
    Some (Return JsUndefined,
          log one_session [Engine (sqlite3session_attach 7%N (Some "all"))]).
Proof. reflexivity. Qed.

(** C2, counterexample: attach("all") passes the table name "all" to the
    engine, as for any other string; it never makes the wildcard call. *)
Lemma attach_all_names_a_table : ¬ attach_all_is_wildcard.
Proof.
  intros claim.
  destruct (claim one_session (mkInfo 1%N [JsString "all"]) the_session the_database
              SQLITE_OK (one_session_usable _) (or_intror eq_refl))
    as (r & w' & later & Hrun & Htrace).
  rewrite attach_all_trace in Hrun. injection Hrun as <- <-.
  cbn in Htrace. discriminate Htrace.
Qed.

Lemma c_str_without_NUL s : contains_NUL s = false → c_str s = s.
Proof.
  induction s as [|c rest IH]; [done|]. cbn.
  intros Hnone. apply orb_false_iff in Hnone as [Hc Hrest].
  rewrite Hc. by rewrite IH.
Qed.

Example attach_name_with_NUL :
  JS_attach SQLITE_OK (mkInfo 1%N [JsString a_NUL_b]) one_session =
    Some (Return JsUndefined,
          log one_session [Engine (sqlite3session_attach 7%N (Some "a"))]).
Proof. reflexivity. Qed.

(** C2, as the code has it: with no argument, or a first argument that is
    null or undefined, attach makes the wildcard call (no table name); with
    a string as first argument, "all" included, it passes that string as a
    C string, so the engine is given the table name up to the first NUL
    character of the string: the string itself when it has none.  Either
    way this is its only attach call, and it returns undefined when the
    engine accepts, a database error otherwise. *)
Theorem attach_table_selection w info s d status :
  usable w info s d →
  (Args info = [] ∨ (∃ a rest, Args info = a :: rest ∧ IsNullOrUndefined a = true) →
   JS_attach status info w = Some (attached w s d status None)) ∧
  (∀ name rest, Args info = JsString name :: rest →
   JS_attach status info w = Some (attached w s d status (Some (c_str name)))) ∧
  (∀ name rest, Args info = JsString name :: rest →
   contains_NUL name = false →
   JS_attach status info w = Some (attached w s d status (Some name))).
Proof.
  intros (Hs & Hd & Halive & Hopen).
  pose proof (attach_status_cases w s d status) as Hcall.
  assert (Hnamed : ∀ name rest, Args info = JsString name :: rest →
            JS_attach status info w = Some (attached w s d status (Some (c_str name)))).
  { intros name rest Hargs.
    assert (Hlen : (0 <? Length info) = true).
    { apply Z.ltb_lt. unfold Length. rewrite Hargs. cbn [length]. lia. }
    assert (Harg : arg info 0 = JsString name) by (unfold arg; by rewrite Hargs).
    rewrite <- (Hcall (Some (c_str name)) Hd).
    unfold_method. rewrite Hs; cbn. rewrite Halive; cbn. rewrite Hd; cbn.
    rewrite Hopen; cbn. rewrite Hlen, Harg. reflexivity. }
  split; [|split].
  - intros Hargs.
    assert (Hwild : (0 <? Length info) && negb (IsNullOrUndefined (arg info 0)) = false).
    { unfold Length, arg. destruct Hargs as [-> | (a & rest & -> & Hnull)]; cbn.
      - reflexivity.
      - rewrite Hnull. apply andb_false_r. }
    rewrite <- (Hcall None Hd).
    unfold_method. rewrite Hs; cbn. rewrite Halive; cbn. rewrite Hd; cbn.
    rewrite Hopen; cbn. by rewrite Hwild.
  - exact Hnamed.
  - intros name rest Hargs Hnone.
    rewrite (Hnamed name rest Hargs). by rewrite (c_str_without_NUL name Hnone).
Qed.

Lemma attach_table_selection_witness :
  JS_attach SQLITE_OK (mkInfo 1%N []) one_session =
    Some (attached one_session the_session the_database SQLITE_OK None) ∧
  JS_attach SQLITE_OK (mkInfo 1%N [JsString "all"]) one_session =
    Some (attached one_session the_session the_database SQLITE_OK (Some "all")) ∧
  JS_attach SQLITE_OK (mkInfo 1%N [JsString a_NUL_b]) one_session =
    Some (attached one_session the_session the_database SQLITE_OK (Some "a")).
Proof.
  split; [|split].
  - apply (proj1 (attach_table_selection one_session (mkInfo 1%N []) the_session
                    the_database SQLITE_OK (one_session_usable _))).
    left. reflexivity.
  - apply (proj2 (proj2 (attach_table_selection one_session (mkInfo 1%N [JsString "all"])
                    the_session the_database SQLITE_OK (one_session_usable _))) "all" []);
      reflexivity.
  - apply (proj1 (proj2 (attach_table_selection one_session
                    (mkInfo 1%N [JsString a_NUL_b])
                    the_session the_database SQLITE_OK (one_session_usable _)))
             a_NUL_b []).
    reflexivity.
Defined.

(** ** enable *)

Example enable_two_arguments :
  JS_enable (mkInfo 1%N [JsBoolean true; JsNumber 42]) one_session =
    Some (Return JsUndefined, log one_session [Engine (sqlite3session_enable 7%N 1)]).
Proof. reflexivity. Qed.

(** C3, counterexample: enable(true, 42) has two arguments, yet it returns
    normally and reaches the engine. *)
Lemma enable_ignores_extra_arguments : ¬ enable_needs_exactly_one_boolean.
Proof.
  intros claim.
  destruct (claim one_session (mkInfo 1%N [JsBoolean true; JsNumber 42]) the_session
              the_database (one_session_usable _)) as (message & Hrun).
  - intros b. discriminate.
  - rewrite enable_two_arguments in Hrun. discriminate Hrun.
Qed.

(** C3, as the code has it: enable succeeds exactly when there is a first
    argument and it is a boolean (further arguments are ignored), and then
    makes one engine call carrying that flag; in every other case it ends
    with a type error and the world is unchanged. *)
Theorem enable_first_argument_boolean w info s d :
  usable w info s d →
  match Args info with
  | JsBoolean b :: _ =>
      JS_enable info w =
        Some (Return JsUndefined,
              log w [Engine (sqlite3session_enable (session_handle s) (if b then 1 else 0))])
  | _ =>
      JS_enable info w =
        Some (Throw (TypeError "Expected first argument to be a boolean"), w)
  end.
Proof.
  intros (Hs & Hd & Halive & Hopen).
  unfold_method. rewrite Hs; cbn. rewrite Halive; cbn. rewrite Hd; cbn.
  rewrite Hopen; cbn. unfold Length, arg.
  destruct (Args info) as [|a rest]; [reflexivity|].
  replace (Z.of_nat (length (a :: rest)) <? 1) with false
    by (symmetry; apply Z.ltb_ge; cbn [length]; lia).
  destruct a; reflexivity.
Qed.

Lemma enable_first_argument_boolean_witness :
  JS_enable (mkInfo 1%N [JsBoolean false; JsNull]) one_session =
    Some (Return JsUndefined, log one_session [Engine (sqlite3session_enable 7%N 0)]).
Proof.
  apply (enable_first_argument_boolean one_session (mkInfo 1%N [JsBoolean false; JsNull])
           the_session the_database (one_session_usable _)).
Defined.

(** ** changeset *)

(** C8: when the engine reports success with a NULL buffer or a zero size,
    changeset returns undefined, not a byte array; a non-NULL (hence
    zero-length) allocation is handed to [sqlite3_free] right after the
    engine call, and nothing else happens before the return. *)
Theorem changeset_without_changes w info s d reply built :
  usable w info s d →
  reply_status reply = SQLITE_OK →
  reply_buffer reply = NULL ∨ reply_size reply = 0 →
  JS_changeset reply built info w =
    Some (Return JsUndefined,
          log w (Engine (sqlite3session_changeset (session_handle s)) ::
                 if decide (reply_buffer reply = NULL) then []
                 else [Engine (sqlite3_free (reply_buffer reply))])).
Proof.
  intros (Hs & Hd & Halive & Hopen) Hok Hempty.
  unfold_method. rewrite Hs; cbn. rewrite Halive; cbn. rewrite Hd; cbn.
  rewrite Hopen; cbn. rewrite Hok; cbn.
  assert (Hcond : (reply_buffer reply =? NULL)%N || (reply_size reply =? 0) = true).
  { destruct Hempty as [-> | ->]; [reflexivity | apply orb_true_r]. }
  rewrite Hcond.
  destruct (N.eqb_spec (reply_buffer reply) NULL) as [Hnull | Hnonnull]; cbn.
  - rewrite decide_True by done. reflexivity.
  - rewrite decide_False by done. unfold log; cbn. by rewrite <- app_assoc.
Qed.

Lemma changeset_without_changes_witness :
  JS_changeset (mkReply SQLITE_OK 0 55%N) true (mkInfo 1%N []) one_session =
    Some (Return JsUndefined,
          log one_session [Engine (sqlite3session_changeset 7%N); Engine (sqlite3_free 55%N)]).
Proof.
  apply (changeset_without_changes one_session (mkInfo 1%N []) the_session the_database
           (mkReply SQLITE_OK 0 55%N) true (one_session_usable _)).
  - reflexivity.
  - right. reflexivity.
Defined.

(** C1: when the engine hands back a non-empty buffer, (a) if the host
    builds the byte array, changeset returns it without freeing anything,
    and reclaiming that value makes exactly one call, [sqlite3_free] on the
    engine's buffer (never the C library's [free]); (b) if the host fails to
    build it, changeset calls [sqlite3_free] on the buffer before it ends,
    and ends with a plain [Error], which is not the engine-error kind. *)
Theorem changeset_buffer_ownership w info s d reply :
  usable w info s d →
  reply_status reply = SQLITE_OK →
  reply_buffer reply ≠ NULL →
  reply_size reply ≠ 0 →
  (∃ v,
      JS_changeset reply true info w =
        Some (Return v,
              log w [Engine (sqlite3session_changeset (session_handle s));
                     Buffer_New (reply_buffer reply) (reply_size reply)]) ∧
      ∀ w', finalize v w' = Some (tt, log w' [Engine (sqlite3_free (reply_buffer reply))])) ∧
  (∃ e,
      JS_changeset reply false info w =
        Some (Throw e,
              log w [Engine (sqlite3session_changeset (session_handle s));
                     Buffer_New (reply_buffer reply) (reply_size reply);
                     Engine (sqlite3_free (reply_buffer reply))]) ∧
      e = Error "Failed to create buffer for changeset" ∧
      is_engine_error e = false).
Proof.
  intros (Hs & Hd & Halive & Hopen) Hok Hbuffer Hsize.
  assert (Hcond : (reply_buffer reply =? NULL)%N || (reply_size reply =? 0) = false).
  { apply orb_false_iff. split; [by apply N.eqb_neq | by apply Z.eqb_neq]. }
  split.
  - exists (JsBuffer (reply_buffer reply) (reply_size reply) FreeSqliteMemory NULL).
    split; [|reflexivity].
    unfold_method. rewrite Hs; cbn. rewrite Halive; cbn. rewrite Hd; cbn.
    rewrite Hopen; cbn. rewrite Hok; cbn. rewrite Hcond.
    unfold log; cbn. by rewrite <- app_assoc.
  - exists (Error "Failed to create buffer for changeset").
    split; [|done].
    unfold_method. rewrite Hs; cbn. rewrite Halive; cbn. rewrite Hd; cbn.
    rewrite Hopen; cbn. rewrite Hok; cbn. rewrite Hcond.
    unfold log; cbn. by rewrite <- !app_assoc.
Qed.

Lemma changeset_buffer_ownership_witness :
  ∃ e,
    JS_changeset (mkReply SQLITE_OK 5 55%N) false (mkInfo 1%N []) one_session =
      Some (Throw e,
            log one_session [Engine (sqlite3session_changeset 7%N); Buffer_New 55%N 5;
                             Engine (sqlite3_free 55%N)]) ∧
    e = Error "Failed to create buffer for changeset" ∧
    is_engine_error e = false.
Proof.
  apply (proj2 (changeset_buffer_ownership one_session (mkInfo 1%N []) the_session
                  the_database (mkReply SQLITE_OK 5 55%N) (one_session_usable _)
                  eq_refl ltac:(discriminate) ltac:(discriminate))).
Defined.

(** ** close, the destructor and the connection's shutdown *)

Lemma RemoveSession_unregistered w d dbo session :
  database_heap w !! d = Some dbo →
  Database_RemoveSession d session w = Some (tt, unregistered d dbo session w).
Proof.
  intros Hd. unfold Database_RemoveSession, bind, read_database. by rewrite Hd.
Qed.

Lemma CloseHandles_alive w this s :
  session_heap w !! this = Some s →
  alive s = true →
  Session_CloseHandles this w = Some (tt, released this s w).
Proof.
  intros Hs Halive. unfold Session_CloseHandles, bind, read_session.
  rewrite Hs; cbn. by rewrite Halive.
Qed.

Lemma CloseHandles_dead w this s :
  session_heap w !! this = Some s →
  alive s = false →
  Session_CloseHandles this w = Some (tt, w).
Proof.
  intros Hs Hdead. unfold Session_CloseHandles, bind, read_session.
  rewrite Hs; cbn. by rewrite Hdead.
Qed.

Lemma JS_close_alive w info s d :
  receiver w info s →
  connection w s d →
  alive s = true →
  JS_close info w =
    Some (Return (JsObject (This info)),
          released (This info) s (unregistered (db s) d (This info) w)).
Proof.
  intros Hs Hd Halive. unfold JS_close, bind at 1 2. unfold read_session at 1.
  unfold receiver in Hs. rewrite Hs, Halive.
  unfold bind. rewrite (RemoveSession_unregistered _ _ _ _ Hd).
  by rewrite (CloseHandles_alive _ _ s).
Qed.

Lemma JS_close_dead w info s :
  receiver w info s →
  alive s = false →
  JS_close info w = Some (Return (JsObject (This info)), w).
Proof. intros Hs Hdead. by evaluate_method. Qed.

Lemma Session_dtor_alive w this s d :
  session_heap w !! this = Some s →
  connection w s d →
  alive s = true →
  Session_dtor this w = Some (tt, released this s (unregistered (db s) d this w)).
Proof.
  intros Hs Hd Halive. unfold Session_dtor, bind at 1 2. unfold read_session at 1.
  rewrite Hs, Halive.
  rewrite (RemoveSession_unregistered _ _ _ _ Hd).
  by rewrite (CloseHandles_alive _ _ s).
Qed.

Lemma Session_dtor_dead w this s :
  session_heap w !! this = Some s →
  alive s = false →
  Session_dtor this w = Some (tt, w).
Proof.
  intros Hs Hdead. unfold Session_dtor, bind at 1 2. unfold read_session at 1.
  rewrite Hs, Hdead. unfold ret. by apply CloseHandles_dead with s.
Qed.

Lemma unregistered_then_released w this s d dbo :
  session_heap w !! this = Some s →
  alive s = true →
  d = db s →
  database_heap w !! d = Some dbo →
  removed_then_released this s w (released this s (unregistered d dbo this w)).
Proof.
  intros Hs Halive -> Hd.
  exists (unregistered (db s) dbo this w).
  split; [by apply RemoveSession_unregistered|].
  split.
  { intros (dbo' & Hlookup & Hin). cbn in Hlookup.
    rewrite lookup_insert_eq in Hlookup. injection Hlookup as <-.
    cbn in Hin. apply elem_of_difference in Hin as [_ Hnot].
    by apply Hnot, elem_of_singleton. }
  split; [done|]. split; [done|].
  split; [by apply CloseHandles_alive|].
  split; [|done]. cbn. by rewrite lookup_insert_eq.
Qed.

Lemma close_registered_sessions d l :
  NoDup l →
  ∀ w dbo,
    database_heap w !! d = Some dbo →
    (∀ q, q ∈ l → ∃ t, session_heap w !! q = Some t ∧ alive t = true ∧ db t = d) →
    ∃ w1 dbo1,
      for_each (λ q, Database_RemoveSession d q >> Session_CloseHandles q) l w
        = Some (tt, w1) ∧
      each_removed_then_released l w w1 ∧
      database_heap w1 !! d = Some dbo1 ∧
      open dbo1 = open dbo ∧
      db_handle dbo1 = db_handle dbo.
Proof.
  induction 1 as [|q l Hfresh Hnodup IH]; intros w dbo Hd Hall.
  - exists w, dbo. repeat split; [constructor | done].
  - destruct (Hall q) as (t & Ht & Halive & Hdb); [by left|].
    set (w1 := released q t (unregistered d dbo q w)).
    destruct (IH w1 (mkDatabase (open dbo) (db_handle dbo) (sessions dbo ∖ {[q]})))
      as (w2 & dbo2 & Hrun & Hclosed & Hd2 & Hopen2 & Hhandle2).
    { cbn. by rewrite lookup_insert_eq. }
    { intros q' Hq'. destruct (Hall q') as (t' & Ht' & Halive' & Hdb'); [by right|].
      exists t'. split; [|done]. cbn.
      rewrite lookup_insert_ne; [done|]. intros ->. by apply Hfresh. }
    exists w2, dbo2. split; [|split; [|done]].
    + cbn [for_each]. unfold bind at 1 2.
      rewrite (RemoveSession_unregistered _ _ _ _ Hd).
      rewrite (CloseHandles_alive _ _ t) by done.
      exact Hrun.
    + apply closed_next with t w1; try done.
      by apply unregistered_then_released.
Qed.

Lemma Database_CloseHandles_open w d dbo :
  database_heap w !! d = Some dbo →
  open dbo = true →
  registry_alive w d dbo →
  ∃ w1 w',
    each_removed_then_released (elements (sessions dbo)) w w1 ∧
    Database_CloseHandles d w = Some (tt, w') ∧
    session_heap w' = session_heap w1 ∧
    trace w' = trace w1 ++ [Engine (sqlite3_close (db_handle dbo))].
Proof.
  intros Hd Hopen Hall.
  destruct (close_registered_sessions d (elements (sessions dbo))
              (NoDup_elements _) w dbo Hd)
    as (w1 & dbo1 & Hrun & Hclosed & Hd1 & _ & Hhandle).
  { intros q Hq. apply Hall. by apply elem_of_elements. }
  exists w1. eexists. split; [done|].
  unfold Database_CloseHandles, bind at 1. unfold read_database at 1.
  rewrite Hd, Hopen. unfold bind at 1. rewrite Hrun.
  unfold bind, read_database. rewrite Hd1. cbn. rewrite Hhandle.
  split; [reflexivity | by split].
Qed.

Example two_sessions_constructed :
  (Session_ctor 1%N 10%N 7%N 0%N >> Session_ctor 2%N 10%N 8%N 1%N) one_database =
    Some (tt, two_sessions).
Proof. reflexivity. Qed.

Lemma two_sessions_registry_alive :
  registry_alive two_sessions 10%N (mkDatabase true 100%N {[ 1%N; 2%N ]}).
Proof.
  intros q Hq. cbn in Hq.
  apply elem_of_union in Hq as [Hq | Hq]; apply elem_of_singleton in Hq as ->;
    by eexists.
Qed.

(** C4: on an alive session, close() and the destructor each run as the
    registry removal followed by [CloseHandles]: in the world in between
    the session is out of the registry while its flag is still up and its
    handle not yet deleted, and only then is the handle deleted and the flag
    lowered.  The connection's shutdown, as the spec describes it, does the
    same to every session of its registry in turn, this one among them, and
    releases the connection after the last of them. *)
Theorem registry_removal_precedes_release w info s d :
  receiver w info s →
  connection w s d →
  alive s = true →
  (∃ w', JS_close info w = Some (Return (JsObject (This info)), w') ∧
         removed_then_released (This info) s w w') ∧
  (∃ w', Session_dtor (This info) w = Some (tt, w') ∧
         removed_then_released (This info) s w w') ∧
  (open d = true →
   registry_alive w (db s) d →
   This info ∈ sessions d →
   ∃ w1 w',
     This info ∈ elements (sessions d) ∧
     each_removed_then_released (elements (sessions d)) w w1 ∧
     Database_CloseHandles (db s) w = Some (tt, w') ∧
     session_heap w' = session_heap w1 ∧
     trace w' = trace w1 ++ [Engine (sqlite3_close (db_handle d))]).
Proof.
  intros Hs Hd Halive.
  split; [|split].
  - eexists. split; [by apply JS_close_alive|].
    by apply unregistered_then_released.
  - eexists. split; [by apply Session_dtor_alive|].
    by apply unregistered_then_released.
  - intros Hopen Hall Hin.
    destruct (Database_CloseHandles_open w (db s) d Hd Hopen Hall)
      as (w1 & w' & Hclosed & Hrun & Hheap & Htrace).
    exists w1, w'. split; [by apply elem_of_elements | done].
Qed.

Lemma registry_removal_precedes_release_witness :
  (∃ w', JS_close (mkInfo 1%N []) two_sessions = Some (Return (JsObject 1%N), w') ∧
         removed_then_released 1%N the_session two_sessions w') ∧
  (∃ w', Session_dtor 1%N two_sessions = Some (tt, w') ∧
         removed_then_released 1%N the_session two_sessions w') ∧
  (∃ w1 w',
     1%N ∈ elements ({[ 1%N; 2%N ]} : gset addr) ∧
     each_removed_then_released (elements ({[ 1%N; 2%N ]} : gset addr)) two_sessions w1 ∧
     Database_CloseHandles 10%N two_sessions = Some (tt, w') ∧
     session_heap w' = session_heap w1 ∧
     trace w' = trace w1 ++ [Engine (sqlite3_close 100%N)]).
Proof.
  destruct (registry_removal_precedes_release two_sessions (mkInfo 1%N []) the_session
              (mkDatabase true 100%N {[ 1%N; 2%N ]}) eq_refl eq_refl eq_refl)
    as (Hclose & Hdtor & Hshut).
  split; [exact Hclose|]. split; [exact Hdtor|].
  apply (Hshut eq_refl two_sessions_registry_alive).
  apply elem_of_union_l. by apply elem_of_singleton.
Defined.

(** ** Repeated close *)

Lemma repeat_close_dead w info s n :
  receiver w info s →
  alive s = false →
  repeat_call n (JS_close info) w =
    Some (replicate n (Return (JsObject (This info))), w).
Proof.
  intros Hs Hdead. induction n as [|n IH]; [reflexivity|].
  cbn [repeat_call replicate]. unfold bind at 1.
  rewrite (JS_close_dead _ _ _ Hs Hdead).
  unfold bind at 1. by rewrite IH.
Qed.

(** C5: the first close() returns the session object and leaves some
    world [w1]; any number [n >= 1] of close() calls in a row leaves that
    same world (same objects, same trace of calls), and each of them
    returns the session object, none throws. *)
Theorem close_idempotent w info s :
  receiver w info s →
  (alive s = true → is_Some (database_heap w !! db s)) →
  ∃ w1,
    JS_close info w = Some (Return (JsObject (This info)), w1) ∧
    ∀ n, (1 ≤ n)%nat →
      repeat_call n (JS_close info) w =
        Some (replicate n (Return (JsObject (This info))), w1).
Proof.
  intros Hs Hdb.
  assert (∃ w1 s1, JS_close info w = Some (Return (JsObject (This info)), w1) ∧
                   receiver w1 info s1 ∧ alive s1 = false)
    as (w1 & s1 & Hclose & Hs1 & Hdead1).
  { destruct (alive s) eqn:Halive.
    - destruct (Hdb eq_refl) as [d Hd].
      eexists. exists (dead s). split; [by apply (JS_close_alive w info s d)|].
      split; [|done]. unfold receiver; cbn. by rewrite lookup_insert_eq.
    - exists w, s. split; [by apply JS_close_dead with s | done]. }
  exists w1. split; [done|].
  intros [|n] Hn; [lia|].
  cbn [repeat_call replicate]. unfold bind at 1. rewrite Hclose.
  unfold bind at 1. by rewrite (repeat_close_dead w1 info s1 n Hs1 Hdead1).
Qed.

Lemma close_idempotent_witness :
  ∃ w1,
    JS_close (mkInfo 1%N []) one_session = Some (Return (JsObject 1%N), w1) ∧
    ∀ n, (1 ≤ n)%nat →
      repeat_call n (JS_close (mkInfo 1%N [])) one_session =
        Some (replicate n (Return (JsObject 1%N)), w1).
Proof.
  apply (close_idempotent one_session (mkInfo 1%N []) the_session eq_refl).
  intros _. by eexists.
Defined.

(** ** close and the state of the connection *)

(** C10: close() returns the session object whatever the state of the
    owning connection, whose open flag it never tests, for an alive session
    as for a closed one; on an alive session whose connection is not open, attach,
    enable and changeset end with the "not open" usage error instead, and
    change nothing. *)
Theorem close_ignores_connection_state w info s :
  receiver w info s →
  (alive s = true → is_Some (database_heap w !! db s)) →
  (∃ w', JS_close info w = Some (Return (JsObject (This info)), w')) ∧
  (∀ d, connection w s d → alive s = true → open d = false →
   (∀ status, JS_attach status info w = Some (Throw (TypeError database_not_open), w)) ∧
   JS_enable info w = Some (Throw (TypeError database_not_open), w) ∧
   (∀ reply built,
       JS_changeset reply built info w = Some (Throw (TypeError database_not_open), w))).
Proof.
  intros Hs Hdb. split.
  - destruct (alive s) eqn:Halive.
    + destruct (Hdb eq_refl) as [d Hd].
      eexists. by apply (JS_close_alive w info s d).
    + exists w. by apply JS_close_dead with s.
  - intros d Hd Halive Hclosed.
    repeat split; intros; unfold_method; rewrite Hs; cbn; rewrite Halive; cbn;
      rewrite Hd; cbn; by rewrite Hclosed.
Qed.

Lemma close_ignores_connection_state_witness :
  (∃ w', JS_close (mkInfo 1%N []) connection_closed_first =
           Some (Return (JsObject 1%N), w')) ∧
  JS_enable (mkInfo 1%N []) connection_closed_first =
    Some (Throw (TypeError database_not_open), connection_closed_first).
Proof.
  destruct (close_ignores_connection_state connection_closed_first (mkInfo 1%N [])
              the_session eq_refl) as (Hclose & Hothers).
  - intros _. by eexists.
  - split; [exact Hclose|].
    exact (proj1 (proj2 (Hothers (mkDatabase false 100%N {[ 1%N ]})
                           eq_refl eq_refl eq_refl))).
Defined.

Example close_after_shutdown :
  (Database_CloseHandles 10%N >> JS_close (mkInfo 1%N [])) one_session =
    Some (Return (JsObject 1%N),
          mkWorld {[ 1%N := the_closed_session ]}
                  {[ 10%N := mkDatabase false 100%N ∅ ]}
                  [AddSession 10%N 1%N; RemoveSession 10%N 1%N;
                   Engine (sqlite3session_delete 7%N); Engine (sqlite3_close 100%N)]).
Proof. reflexivity. Qed.

(** ** Sequences of operations *)

Lemma releases_app h t1 t2 :
  releases h (t1 ++ t2) = (releases h t1 + releases h t2)%nat.
Proof. apply count_occ_app. Qed.

Lemma releases_quiet h evs :
  Forall (λ e, is_release e = false) evs → releases h evs = 0%nat.
Proof.
  induction 1 as [|e evs He _ IH]; [reflexivity|].
  unfold releases in *. rewrite count_occ_cons_neq; [done|].
  intros ->. discriminate He.
Qed.

Lemma releases_delete h h' :
  releases h [Engine (sqlite3session_delete h')] = if decide (h' = h) then 1%nat else 0%nat.
Proof.
  unfold releases. case_decide as Heq.
  - subst. by rewrite count_occ_cons_eq.
  - rewrite count_occ_cons_neq; [done|]. congruence.
Qed.

Lemma session_step_refl s : session_step s s.
Proof. by left. Qed.

Lemma database_step_refl dbo : database_step dbo dbo.
Proof. by split. Qed.

Lemma option_Forall2_same {A} (R : A → A → Prop) (o : option A) :
  (∀ a, R a a) → option_Forall2 R o o.
Proof. intros HR. destruct o; by constructor. Qed.

Lemma session_step_trans s1 s2 s3 :
  session_step s1 s2 → session_step s2 s3 → session_step s1 s3.
Proof.
  intros [-> | [Halive ->]] [-> | [Halive' ->]]; unfold session_step; auto.
Qed.

Lemma database_step_trans d1 d2 d3 :
  database_step d1 d2 → database_step d2 d3 → database_step d1 d3.
Proof.
  intros [Hh1 Hs1] [Hh2 Hs2]. split; [congruence | set_solver].
Qed.

Lemma option_Forall2_trans {A} (R : A → A → Prop) (o1 o2 o3 : option A) :
  (∀ a b c, R a b → R b c → R a c) →
  option_Forall2 R o1 o2 → option_Forall2 R o2 o3 → option_Forall2 R o1 o3.
Proof.
  intros HR H12 H23. destruct H12; inversion H23; subst; constructor; eauto.
Qed.

Lemma grows_refl w : grows w w.
Proof.
  split.
  - intros p. apply option_Forall2_same, session_step_refl.
  - intros d. apply option_Forall2_same, database_step_refl.
  - intros h Hne. by destruct Hne.
Qed.

Lemma grows_dead w w' p s :
  grows w w' → session_heap w !! p = Some s → alive s = false →
  session_heap w' !! p = Some s.
Proof.
  intros Hg Hs Hdead. pose proof (sessions_step _ _ Hg p) as Hstep.
  rewrite Hs in Hstep. inversion Hstep as [? s' [-> | [Halive _]] |]; subst; [done|].
  congruence.
Qed.

Lemma grows_trans w1 w2 w3 : grows w1 w2 → grows w2 w3 → grows w1 w3.
Proof.
  intros H12 H23. split.
  - intros p. eapply option_Forall2_trans;
      [apply session_step_trans | apply H12 | apply H23].
  - intros d. eapply option_Forall2_trans;
      [apply database_step_trans | apply H12 | apply H23].
  - intros h Hne.
    destruct (decide (releases h (trace w2) = releases h (trace w1))) as [Heq | Hne12].
    + rewrite <- Heq in Hne.
      destruct (release_flips _ _ H23 h Hne) as (p & s & Hs2 & Hh & Halive & Hs3).
      pose proof (sessions_step _ _ H12 p) as Hstep. rewrite Hs2 in Hstep.
      inversion Hstep as [s1 ? [-> | [_ ->]] Hs1 |]; subst.
      * exists p, s. by rewrite <- Hs1.
      * discriminate Halive.
    + destruct (release_flips _ _ H12 h Hne12) as (p & s & Hs1 & Hh & Halive & Hs2).
      exists p, s. repeat split; try done.
      by apply (grows_dead w2 w3).
Qed.

Lemma grows_session_exists w w' p :
  grows w w' → is_Some (session_heap w !! p) → is_Some (session_heap w' !! p).
Proof.
  intros Hg [s Hs]. pose proof (sessions_step _ _ Hg p) as Hstep.
  rewrite Hs in Hstep. inversion Hstep; subst. eauto.
Qed.

Lemma grows_database_exists w w' d :
  grows w w' → is_Some (database_heap w !! d) → is_Some (database_heap w' !! d).
Proof.
  intros Hg [dbo Hd]. pose proof (databases_step _ _ Hg d) as Hstep.
  rewrite Hd in Hstep. inversion Hstep; subst. eauto.
Qed.

Lemma grows_targets w w' o : grows w w' → targets w o → targets w' o.
Proof.
  intros Hg. destruct o; cbn;
    first [apply grows_session_exists | apply grows_database_exists]; done.
Qed.

Lemma quiet_refl w : quiet w w.
Proof.
  split; [done|]. split.
  - intros d. apply option_Forall2_same, database_step_refl.
  - exists []. by rewrite app_nil_r.
Qed.

Lemma quiet_unregistered w d dbo session :
  database_heap w !! d = Some dbo → quiet w (unregistered d dbo session w).
Proof.
  intros Hd. split; [done|]. split.
  - intros d'. cbn. destruct (decide (d = d')) as [<- | Hne].
    + rewrite lookup_insert_eq, Hd. constructor.
      split; [done | by apply subseteq_difference_l].
    + rewrite lookup_insert_ne by done. apply option_Forall2_same, database_step_refl.
  - exists [RemoveSession d session]. split; [done|]. by repeat constructor.
Qed.

Lemma quiet_consistent w w' : consistent w → quiet w w' → consistent w' ∧ grows w w'.
Proof.
  intros Hw (Hheap & Hdbs & evs & Htrace & Hevs).
  assert (Hcount : ∀ h, releases h (trace w') = releases h (trace w)).
  { intros h. rewrite Htrace, releases_app, (releases_quiet h evs Hevs). lia. }
  split; split.
  - intros h. rewrite Hcount. apply Hw.
  - intros p s. rewrite Hheap, Hcount. apply Hw.
  - intros p q s t. rewrite Hheap. apply Hw.
  - intros p s. rewrite Hheap. intros Hs Halive.
    destruct (alive_has_connection _ Hw p s Hs Halive) as [dbo Hd].
    pose proof (Hdbs (db s)) as Hstep. rewrite Hd in Hstep.
    inversion Hstep; subst. eauto.
  - intros d dbo' p Hd' Hin. rewrite Hheap.
    pose proof (Hdbs d) as Hstep. rewrite Hd' in Hstep.
    inversion Hstep as [dbo ? [_ Hsub] Hd |]; subst.
    apply (registered_exists _ Hw d dbo); [done | set_solver].
  - intros p. rewrite Hheap. apply option_Forall2_same, session_step_refl.
  - done.
  - intros h Hne. by destruct Hne.
Qed.

Lemma released_consistent w this s :
  consistent w →
  session_heap w !! this = Some s →
  alive s = true →
  consistent (released this s w) ∧ grows w (released this s w).
Proof.
  intros Hw Hs Halive.
  assert (Hcount : ∀ h, releases h (trace (released this s w)) =
            (releases h (trace w) + if decide (session_handle s = h) then 1 else 0)%nat).
  { intros h. unfold released. cbn [trace]. by rewrite releases_app, releases_delete. }
  pose proof (alive_unreleased _ Hw this s Hs Halive) as Hzero.
  split; split.
  - intros h. rewrite Hcount. case_decide as Heq.
    + subst h. rewrite Hzero. lia.
    + pose proof (released_once _ Hw h). lia.
  - intros q t Hq Halive'. cbn in Hq.
    destruct (decide (this = q)) as [<- | Hne].
    + rewrite lookup_insert_eq in Hq. injection Hq as <-. discriminate Halive'.
    + rewrite lookup_insert_ne in Hq by done.
      rewrite Hcount, (alive_unreleased _ Hw q t Hq Halive').
      rewrite decide_False; [done|].
      intros Heq. apply Hne. by apply (alive_handles_differ _ Hw this q s t).
  - intros p q t1 t2 Hp Hq Ha1 Ha2. cbn in Hp, Hq.
    destruct (decide (this = p)) as [<- | Hnp].
    { rewrite lookup_insert_eq in Hp. injection Hp as <-. discriminate Ha1. }
    destruct (decide (this = q)) as [<- | Hnq].
    { rewrite lookup_insert_eq in Hq. injection Hq as <-. discriminate Ha2. }
    rewrite lookup_insert_ne in Hp, Hq by done.
    by apply (alive_handles_differ _ Hw p q t1 t2).
  - intros q t Hq Halive'. cbn in Hq |- *.
    destruct (decide (this = q)) as [<- | Hne].
    + rewrite lookup_insert_eq in Hq. injection Hq as <-. discriminate Halive'.
    + rewrite lookup_insert_ne in Hq by done.
      by apply (alive_has_connection _ Hw q t).
  - intros d dbo p Hd Hin. cbn in Hd |- *.
    destruct (decide (this = p)) as [<- | Hne].
    + rewrite lookup_insert_eq. eauto.
    + rewrite lookup_insert_ne by done. by apply (registered_exists _ Hw d dbo).
  - intros p. cbn. destruct (decide (this = p)) as [<- | Hne].
    + rewrite lookup_insert_eq, Hs. constructor. by right.
    + rewrite lookup_insert_ne by done. apply option_Forall2_same, session_step_refl.
  - intros d. apply option_Forall2_same, database_step_refl.
  - intros h Hne. rewrite Hcount in Hne. case_decide as Heq; [|lia].
    exists this, s. repeat split; try done. cbn. by rewrite lookup_insert_eq.
Qed.

Lemma CloseHandles_consistent w this :
  consistent w →
  is_Some (session_heap w !! this) →
  ∃ w', Session_CloseHandles this w = Some (tt, w') ∧ consistent w' ∧ grows w w'.
Proof.
  intros Hw [s Hs]. destruct (alive s) eqn:Halive.
  - exists (released this s w). split; [by apply CloseHandles_alive|].
    by apply released_consistent.
  - exists w. split; [by apply CloseHandles_dead with s|].
    split; [done | apply grows_refl].
Qed.

Lemma remove_then_close_consistent w d this :
  consistent w →
  is_Some (database_heap w !! d) →
  is_Some (session_heap w !! this) →
  ∃ w', (Database_RemoveSession d this >> Session_CloseHandles this) w = Some (tt, w') ∧
        consistent w' ∧ grows w w'.
Proof.
  intros Hw [dbo Hd] Hthis.
  destruct (quiet_consistent w (unregistered d dbo this w) Hw (quiet_unregistered _ _ _ _ Hd))
    as [Hmid Hgmid].
  destruct (CloseHandles_consistent (unregistered d dbo this w) this Hmid Hthis)
    as (w' & Hclose & Hw' & Hg').
  exists w'. split; [|split; [done | by apply grows_trans with (unregistered d dbo this w)]].
  unfold bind. by rewrite (RemoveSession_unregistered _ _ _ _ Hd).
Qed.

(** Close the goal [quiet w w'] where [w'] is [w] with calls appended. *)
Ltac solve_quiet :=
  first
    [ apply quiet_refl
    | split; [reflexivity|]; split;
      [ intros ?; apply option_Forall2_same, database_step_refl
      | eexists; split;
        [ cbn [trace]; rewrite <- ?app_assoc; reflexivity
        | by repeat constructor ] ] ].

Lemma JS_attach_quiet w status info :
  consistent w → is_Some (session_heap w !! This info) →
  ∃ r w', JS_attach status info w = Some (r, w') ∧ quiet w w'.
Proof.
  intros Hw [s Hs]. unfold_method. rewrite Hs; cbn.
  destruct (alive s) eqn:Halive; cbn; [|do 2 eexists; split; [done | solve_quiet]].
  destruct (alive_has_connection _ Hw _ _ Hs Halive) as [d Hd]. rewrite Hd; cbn.
  destruct (open d); cbn; [|do 2 eexists; split; [done | solve_quiet]].
  destruct ((0 <? Length info) && negb (IsNullOrUndefined (arg info 0)));
    [destruct (negb (IsString (arg info 0)))|];
    try destruct (negb (status =? SQLITE_OK)); cbn; rewrite ?Hd; cbn;
    do 2 eexists; (split; [reflexivity | solve_quiet]).
Qed.

Lemma JS_enable_quiet w info :
  consistent w → is_Some (session_heap w !! This info) →
  ∃ r w', JS_enable info w = Some (r, w') ∧ quiet w w'.
Proof.
  intros Hw [s Hs]. unfold_method. rewrite Hs; cbn.
  destruct (alive s) eqn:Halive; cbn; [|do 2 eexists; split; [done | solve_quiet]].
  destruct (alive_has_connection _ Hw _ _ Hs Halive) as [d Hd]. rewrite Hd; cbn.
  destruct (open d); cbn; [|do 2 eexists; split; [done | solve_quiet]].
  destruct ((Length info <? 1) || negb (IsBoolean (arg info 0))); cbn;
    do 2 eexists; (split; [reflexivity | solve_quiet]).
Qed.

Lemma JS_changeset_quiet w reply built info :
  consistent w → is_Some (session_heap w !! This info) →
  ∃ r w', JS_changeset reply built info w = Some (r, w') ∧ quiet w w'.
Proof.
  intros Hw [s Hs]. unfold_method. rewrite Hs; cbn.
  destruct (alive s) eqn:Halive; cbn; [|do 2 eexists; split; [done | solve_quiet]].
  destruct (alive_has_connection _ Hw _ _ Hs Halive) as [d Hd]. rewrite Hd; cbn.
  destruct (open d); cbn; [|do 2 eexists; split; [done | solve_quiet]].
  destruct (negb (reply_status reply =? SQLITE_OK)); cbn; rewrite ?Hd; cbn.
  { do 2 eexists; (split; [reflexivity | solve_quiet]). }
  destruct ((reply_buffer reply =? NULL)%N) eqn:Hnull; cbn.
  { do 2 eexists; (split; [reflexivity | solve_quiet]). }
  destruct (reply_size reply =? 0); cbn.
  { do 2 eexists; (split; [reflexivity | solve_quiet]). }
  destruct built; cbn; do 2 eexists; (split; [reflexivity | solve_quiet]).
Qed.

Lemma JS_close_consistent w info :
  consistent w → is_Some (session_heap w !! This info) →
  ∃ r w', JS_close info w = Some (r, w') ∧ consistent w' ∧ grows w w'.
Proof.
  intros Hw [s Hs]. destruct (alive s) eqn:Halive.
  - destruct (remove_then_close_consistent w (db s) (This info) Hw)
      as (w' & Hrun & Hw' & Hg);
      [by apply (alive_has_connection _ Hw (This info) s) | by eauto |].
    exists (Return (JsObject (This info))), w'. split; [|done].
    unfold JS_close, bind at 1 2. unfold read_session. rewrite Hs, Halive.
    by rewrite Hrun.
  - exists (Return (JsObject (This info))), w.
    split; [by apply JS_close_dead with s|]. split; [done | apply grows_refl].
Qed.

Lemma Session_dtor_consistent w this :
  consistent w → is_Some (session_heap w !! this) →
  ∃ w', Session_dtor this w = Some (tt, w') ∧ consistent w' ∧ grows w w'.
Proof.
  intros Hw [s Hs]. destruct (alive s) eqn:Halive.
  - destruct (remove_then_close_consistent w (db s) this Hw)
      as (w' & Hrun & Hw' & Hg);
      [by apply (alive_has_connection _ Hw this s) | by eauto |].
    exists w'. split; [|done].
    unfold Session_dtor, bind at 1. unfold read_session. by rewrite Hs, Halive.
  - exists w. split; [by apply Session_dtor_dead with s|].
    split; [done | apply grows_refl].
Qed.

Lemma shut_down_sessions_consistent d l :
  ∀ w, consistent w →
    is_Some (database_heap w !! d) →
    (∀ q, q ∈ l → is_Some (session_heap w !! q)) →
    ∃ w', for_each (λ q, Database_RemoveSession d q >> Session_CloseHandles q) l w
            = Some (tt, w') ∧
          consistent w' ∧ grows w w'.
Proof.
  induction l as [|q l IH]; intros w Hw Hd Hall.
  - exists w. split; [done|]. split; [done | apply grows_refl].
  - destruct (remove_then_close_consistent w d q Hw Hd) as (w1 & Hrun1 & Hw1 & Hg1).
    { apply Hall. by left. }
    destruct (IH w1 Hw1) as (w2 & Hrun2 & Hw2 & Hg2).
    { by apply (grows_database_exists w). }
    { intros q' Hq'. apply (grows_session_exists w); [done|]. apply Hall. by right. }
    exists w2. split; [|split; [done | by apply grows_trans with w1]].
    cbn [for_each]. unfold bind at 1. by rewrite Hrun1.
Qed.

Lemma Database_CloseHandles_consistent w d :
  consistent w → is_Some (database_heap w !! d) →
  ∃ w', Database_CloseHandles d w = Some (tt, w') ∧ consistent w' ∧ grows w w'.
Proof.
  intros Hw [dbo Hd]. unfold Database_CloseHandles, bind at 1. unfold read_database at 1.
  rewrite Hd. destruct (open dbo).
  - destruct (shut_down_sessions_consistent d (elements (sessions dbo)) w Hw)
      as (w1 & Hrun & Hw1 & Hg1); [by eauto | |].
    { intros q Hq. apply (registered_exists _ Hw d dbo); [done|].
      by apply elem_of_elements. }
    destruct (grows_database_exists w w1 d Hg1) as [dbo1 Hd1]; [by eauto|].
    unfold bind at 1. rewrite Hrun.
    unfold bind, read_database. rewrite Hd1. cbn.
    eexists. split; [reflexivity|].
    match goal with |- consistent ?w' ∧ _ =>
      destruct (quiet_consistent w1 w' Hw1) as [Hw' Hg']
    end.
    { split; [reflexivity|]. split.
      - intros d'. cbn. destruct (decide (d = d')) as [<- | Hne].
        + rewrite lookup_insert_eq, Hd1. constructor. by split.
        + rewrite lookup_insert_ne by done.
          apply option_Forall2_same, database_step_refl.
      - eexists. split; [reflexivity|]. by repeat constructor. }
    split; [done | by apply grows_trans with w1].
  - exists w. split; [done|]. split; [done | apply grows_refl].
Qed.

Lemma exec_consistent w o :
  consistent w → targets w o →
  ∃ w', exec o w = Some (tt, w') ∧ consistent w' ∧ grows w w'.
Proof.
  intros Hw Ht. destruct o; cbn in Ht; cbn [exec].
  - destruct (JS_attach_quiet w status info Hw Ht) as (r & w' & Hrun & Hq).
    exists w'. split; [unfold bind; by rewrite Hrun | by apply quiet_consistent].
  - destruct (JS_enable_quiet w info Hw Ht) as (r & w' & Hrun & Hq).
    exists w'. split; [unfold bind; by rewrite Hrun | by apply quiet_consistent].
  - destruct (JS_changeset_quiet w reply built info Hw Ht) as (r & w' & Hrun & Hq).
    exists w'. split; [unfold bind; by rewrite Hrun | by apply quiet_consistent].
  - destruct (JS_close_consistent w info Hw Ht) as (r & w' & Hrun & Hok).
    exists w'. split; [unfold bind; by rewrite Hrun | done].
  - by apply Session_dtor_consistent.
  - by apply CloseHandles_consistent.
  - by apply Database_CloseHandles_consistent.
Qed.

Lemma run_consistent ops :
  ∀ w, consistent w → Forall (targets w) ops →
    ∃ w', run ops w = Some (tt, w') ∧ consistent w' ∧ grows w w'.
Proof.
  induction ops as [|o ops IH]; intros w Hw Hall.
  - exists w. split; [done|]. split; [done | apply grows_refl].
  - inversion Hall as [|? ? Ho Hops]; subst.
    destruct (exec_consistent w o Hw Ho) as (w1 & Hrun1 & Hw1 & Hg1).
    destruct (IH w1 Hw1) as (w2 & Hrun2 & Hw2 & Hg2).
    { eapply Forall_impl; [exact Hops|]. intros o'. by apply grows_targets. }
    exists w2. split; [|split; [done | by apply grows_trans with w1]].
    unfold run in *. cbn [for_each]. unfold bind at 1. by rewrite Hrun1.
Qed.

Lemma two_sessions_consistent : consistent two_sessions.
Proof.
  assert (Hheap : ∀ p s, session_heap two_sessions !! p = Some s →
            (p = 1%N ∧ s = the_session) ∨ (p = 2%N ∧ s = mkSession 10%N 8%N 1%N true)).
  { intros p s Hp. cbn in Hp. apply lookup_insert_Some in Hp as [[<- <-] | [_ Hp]].
    - by right.
    - apply lookup_singleton_Some in Hp as [<- <-]. by left. }
  assert (Hnone : ∀ h, releases h (trace two_sessions) = 0%nat).
  { intros h. apply releases_quiet. by repeat constructor. }
  split.
  - intros h. rewrite Hnone. lia.
  - intros p s _ _. apply Hnone.
  - intros p q s t Hp Hq _ _ Hh.
    destruct (Hheap p s Hp) as [[-> ->] | [-> ->]],
             (Hheap q t Hq) as [[-> ->] | [-> ->]]; done.
  - intros p s Hp _. destruct (Hheap p s Hp) as [[-> ->] | [-> ->]]; by eexists.
  - intros d dbo p Hd Hin. cbn in Hd.
    apply lookup_singleton_Some in Hd as [<- <-]. cbn in Hin.
    apply elem_of_union in Hin as [Hin | Hin]; apply elem_of_singleton in Hin as ->;
      by eexists.
Qed.

Example teardown_trace :
  ∃ w, run teardown two_sessions = Some (tt, w) ∧
       trace w = [AddSession 10%N 1%N; AddSession 10%N 2%N;
                  RemoveSession 10%N 1%N; Engine (sqlite3session_delete 7%N);
                  RemoveSession 10%N 2%N; Engine (sqlite3session_delete 8%N);
                  Engine (sqlite3_close 100%N)].
Proof. eexists. split; reflexivity. Qed.

(** C7: from a consistent world, every sequence of operations on existing
    objects (the four methods, the destructor, a direct [CloseHandles], the
    connection's shutdown) runs to the end; in the final trace no session
    handle is deleted more than once; and at every step of the sequence, a
    handle is deleted only if its session was alive and the handle still
    undeleted just before the step, and just after it the flag is down and
    the handle deleted once. *)
Theorem handle_released_at_most_once w0 ops :
  consistent w0 →
  Forall (targets w0) ops →
  ∃ w,
    run ops w0 = Some (tt, w) ∧
    (∀ h, (releases h (trace w) ≤ 1)%nat) ∧
    (∀ before o after, ops = before ++ o :: after →
      ∃ w1 w2,
        run before w0 = Some (tt, w1) ∧
        exec o w1 = Some (tt, w2) ∧
        ∀ h, releases h (trace w2) ≠ releases h (trace w1) →
          ∃ this s,
            session_heap w1 !! this = Some s ∧
            session_handle s = h ∧
            alive s = true ∧
            releases h (trace w1) = 0%nat ∧
            session_heap w2 !! this = Some (dead s) ∧
            releases h (trace w2) = 1%nat).
Proof.
  intros Hw0 Hall.
  destruct (run_consistent ops w0 Hw0 Hall) as (w & Hrun & Hw & _).
  exists w. split; [done|]. split; [apply Hw|].
  intros before o after ->.
  apply Forall_app in Hall as [Hbefore Hrest].
  inversion Hrest as [|? ? Ho _]; subst.
  destruct (run_consistent before w0 Hw0 Hbefore) as (w1 & Hrun1 & Hw1 & Hg1).
  destruct (exec_consistent w1 o Hw1 (grows_targets _ _ _ Hg1 Ho))
    as (w2 & Hrun2 & Hw2 & Hg2).
  exists w1, w2. split; [done|]. split; [done|].
  intros h Hne.
  destruct (release_flips _ _ Hg2 h Hne) as (this & s & Hs & Hh & Halive & Hs2).
  pose proof (alive_unreleased _ Hw1 this s Hs Halive) as Hzero. rewrite Hh in Hzero.
  exists this, s. repeat split; try done.
  pose proof (released_once _ Hw2 h). lia.
Qed.

Lemma handle_released_at_most_once_witness :
  ∃ w,
    run teardown two_sessions = Some (tt, w) ∧
    (∀ h, (releases h (trace w) ≤ 1)%nat) ∧
    (∀ before o after, teardown = before ++ o :: after →
      ∃ w1 w2,
        run before two_sessions = Some (tt, w1) ∧
        exec o w1 = Some (tt, w2) ∧
        ∀ h, releases h (trace w2) ≠ releases h (trace w1) →
          ∃ this s,
            session_heap w1 !! this = Some s ∧
            session_handle s = h ∧
            alive s = true ∧
            releases h (trace w1) = 0%nat ∧
            session_heap w2 !! this = Some (dead s) ∧
            releases h (trace w2) = 1%nat).
Proof.
  apply (handle_released_at_most_once two_sessions teardown two_sessions_consistent).
  repeat constructor; by eexists.
Defined.

(** * Further properties of the code *)

(** ** The order on sessions *)

(** X1: [Compare] is a strict weak order decided by the identities alone:
    irreflexive, transitive, with a transitive equivalence that holds
    exactly between sessions of equal identity; and of two sessions with
    different identities one comes before the other. *)
Theorem Compare_strict_weak_order :
  (∀ a, Compare a a = false) ∧
  (∀ a b c, Compare a b = true → Compare b c = true → Compare a c = true) ∧
  (∀ a b, equivalent a b ↔ id a = id b) ∧
  (∀ a b c, equivalent a b → equivalent b c → equivalent a c) ∧
  (∀ a b, id a ≠ id b → Compare a b = true ∨ Compare b a = true).
Proof.
  assert (Hequiv : ∀ a b, equivalent a b ↔ id a = id b).
  { intros a b. unfold equivalent, Compare. rewrite !N.ltb_ge. lia. }
  split; [|split; [|split; [done|split]]].
  - intros a. apply N.ltb_irrefl.
  - intros a b c. unfold Compare. rewrite !N.ltb_lt. lia.
  - intros a b c Hab Hbc. apply Hequiv. apply Hequiv in Hab, Hbc. congruence.
  - intros a b Hne. unfold Compare. rewrite !N.ltb_lt. lia.
Qed.

(** ** attach, enable and changeset as observers *)

Lemma log_empty w : w = log w [].
Proof. destruct w. unfold log; cbn. by rewrite app_nil_r. Qed.


Lemma observes_unchanged w s r :
  observes w s (Some (r, w)).
Proof. exists r, []. split; [by rewrite <- log_empty | done]. Qed.

Lemma observes_logged w s r evs :
  alive s = true →
  forallb (query_event (session_handle s)) evs = true →
  observes w s (Some (r, log w evs)).
Proof. intros Halive Hevs. exists r, evs. split; [done|]. split; [done|]. congruence. Qed.

(** Bring [mkWorld _ _ ((trace w ++ l1) ++ l2)] to the form [log w _]. *)
Ltac as_log w :=
  repeat match goal with
         | |- context [mkWorld (session_heap w) (database_heap w) (trace w ++ ?l)] =>
             change (mkWorld (session_heap w) (database_heap w) (trace w ++ l))
               with (log w l)
         | |- context [mkWorld (session_heap w) (database_heap w) ((?t ++ ?l1) ++ ?l2)] =>
             rewrite <- (app_assoc t l1 l2)
         end.

Ltac solve_observes w :=
  first
    [ apply observes_unchanged
    | as_log w; apply observes_logged;
      [ assumption | cbn; rewrite ?N.eqb_refl; reflexivity ] ].

Lemma JS_attach_observes w status info s :
  receiver w info s →
  (alive s = true → is_Some (database_heap w !! db s)) →
  observes w s (JS_attach status info w).
Proof.
  intros Hs Hdb. unfold_method. rewrite Hs; cbn.
  destruct (alive s) eqn:Halive; cbn; [|solve_observes w].
  destruct (Hdb eq_refl) as [d Hd]. rewrite Hd; cbn.
  destruct (open d); cbn; [|solve_observes w].
  destruct ((0 <? Length info) && negb (IsNullOrUndefined (arg info 0)));
    [destruct (negb (IsString (arg info 0)))|];
    try destruct (negb (status =? SQLITE_OK)); cbn; rewrite ?Hd; cbn;
    solve_observes w.
Qed.

Lemma JS_enable_observes w info s :
  receiver w info s →
  (alive s = true → is_Some (database_heap w !! db s)) →
  observes w s (JS_enable info w).
Proof.
  intros Hs Hdb. unfold_method. rewrite Hs; cbn.
  destruct (alive s) eqn:Halive; cbn; [|solve_observes w].
  destruct (Hdb eq_refl) as [d Hd]. rewrite Hd; cbn.
  destruct (open d); cbn; [|solve_observes w].
  destruct ((Length info <? 1) || negb (IsBoolean (arg info 0))); cbn;
    solve_observes w.
Qed.

Lemma JS_changeset_observes w reply built info s :
  receiver w info s →
  (alive s = true → is_Some (database_heap w !! db s)) →
  observes w s (JS_changeset reply built info w).
Proof.
  intros Hs Hdb. unfold_method. rewrite Hs; cbn.
  destruct (alive s) eqn:Halive; cbn; [|solve_observes w].
  destruct (Hdb eq_refl) as [d Hd]. rewrite Hd; cbn.
  destruct (open d); cbn; [|solve_observes w].
  destruct (negb (reply_status reply =? SQLITE_OK)); cbn; rewrite ?Hd; cbn;
    [solve_observes w|].
  destruct ((reply_buffer reply =? NULL)%N) eqn:Hnull; cbn; [solve_observes w|].
  destruct (reply_size reply =? 0); cbn; [solve_observes w|].
  destruct built; cbn; solve_observes w.
Qed.

(** X2: on any receiver, attach, enable and changeset return, leave every
    session and connection object as it was (so they never lower a flag or
    touch a registry), and add to the trace only session calls on the
    receiver's own handle, buffer releases, the byte-array request and the
    error-text fetch; on a closed session they add nothing. *)
Theorem methods_only_observe w info s :
  receiver w info s →
  (alive s = true → is_Some (database_heap w !! db s)) →
  (∀ status, observes w s (JS_attach status info w)) ∧
  observes w s (JS_enable info w) ∧
  (∀ reply built, observes w s (JS_changeset reply built info w)).
Proof.
  intros Hs Hdb. split; [|split]; intros.
  - by apply JS_attach_observes.
  - by apply JS_enable_observes.
  - by apply JS_changeset_observes.
Qed.

Lemma methods_only_observe_witness :
  observes one_session the_session
    (JS_changeset (mkReply SQLITE_OK 5 55%N) true (mkInfo 1%N []) one_session).
Proof.
  apply (proj2 (proj2 (methods_only_observe one_session (mkInfo 1%N []) the_session
                         eq_refl (λ _, ex_intro _ the_database eq_refl)))).
Defined.


(** ** changeset and the engine's buffer *)

(** X3: when the engine reports a failure, changeset does not look at the
    size or the buffer at all: whatever they hold, it fetches the error
    text and throws the database error, without releasing anything and
    without asking the host for a byte array. *)
Theorem changeset_engine_failure w info s d reply built :
  usable w info s d →
  reply_status reply ≠ SQLITE_OK →
  JS_changeset reply built info w =
    Some (Throw (SqliteError (db_handle d)),
          log w [Engine (sqlite3session_changeset (session_handle s));
                 Engine (sqlite3_errmsg (db_handle d))]).
Proof.
  intros (Hs & Hd & Halive & Hopen) Hfail.
  apply Z.eqb_neq in Hfail.
  unfold_method. rewrite Hs; cbn. rewrite Halive; cbn. rewrite Hd; cbn.
  rewrite Hopen; cbn. rewrite Hfail; cbn. rewrite Hd; cbn.
  unfold log; cbn. by rewrite <- app_assoc.
Qed.

Lemma changeset_engine_failure_witness :
  JS_changeset (mkReply 7 5 55%N) true (mkInfo 1%N []) one_session =
    Some (Throw (SqliteError 100%N),
          log one_session [Engine (sqlite3session_changeset 7%N);
                           Engine (sqlite3_errmsg 100%N)]).
Proof.
  apply (changeset_engine_failure one_session (mkInfo 1%N []) the_session the_database
           (mkReply 7 5 55%N) true (one_session_usable _)).
  discriminate.
Defined.

(** X4: among the calls changeset itself makes, a non-NULL buffer the
    engine hands over with a success status is passed to [sqlite3_free]
    exactly once when changeset does not return it (zero size, or an empty
    handle from [SAFE_NEW_BUFFER]) and not at all when it returns it in a
    byte array; the finalizer of that array then frees it once, through
    [sqlite3_free].  Nothing is passed to the C library's [free].  Only
    changeset's own calls are counted: what a host that fails does with the
    buffer or with the finalizer is not part of the statement. *)
Theorem changeset_frees_unless_returned w info s d reply built :
  usable w info s d →
  reply_status reply = SQLITE_OK →
  reply_buffer reply ≠ NULL →
  ∃ r evs,
    JS_changeset reply built info w = Some (r, log w evs) ∧
    (frees (reply_buffer reply) evs + hands_over r (reply_buffer reply) = 1)%nat ∧
    (∀ p, libc_free p ∉ evs) ∧
    (∀ v, r = Return v → v ≠ JsUndefined → ∀ w',
       finalize v w' = Some (tt, log w' [Engine (sqlite3_free (reply_buffer reply))])).
Proof.
  intros (Hs & Hd & Halive & Hopen) Hok Hbuffer.
  apply N.eqb_neq in Hbuffer.
  unfold_method. rewrite Hs; cbn. rewrite Halive; cbn. rewrite Hd; cbn.
  rewrite Hopen; cbn. rewrite Hok; cbn. rewrite Hbuffer; cbn.
  destruct (reply_size reply =? 0); cbn; [|destruct built; cbn].
  - as_log w. cbn [app]. do 2 eexists. split; [reflexivity|].
    split; [|split].
    + unfold frees. rewrite count_occ_cons_neq by done.
      rewrite count_occ_cons_eq by done. reflexivity.
    + intros p Hin. repeat (apply elem_of_cons in Hin as [Hin | Hin]; [done|]).
      by apply elem_of_nil in Hin.
    + intros v [= <-] Hv. done.
  - as_log w. cbn [app]. do 2 eexists. split; [reflexivity|].
    split; [|split].
    + unfold frees, hands_over. rewrite decide_True by done.
      rewrite count_occ_cons_neq by done. rewrite count_occ_cons_neq by done.
      reflexivity.
    + intros p Hin. repeat (apply elem_of_cons in Hin as [Hin | Hin]; [done|]).
      by apply elem_of_nil in Hin.
    + intros v [= <-] _ w'. reflexivity.
  - as_log w. cbn [app]. do 2 eexists. split; [reflexivity|].
    split; [|split].
    + unfold frees, hands_over.
      rewrite count_occ_cons_neq by done. rewrite count_occ_cons_neq by done.
      rewrite count_occ_cons_eq by done. reflexivity.
    + intros p Hin. repeat (apply elem_of_cons in Hin as [Hin | Hin]; [done|]).
      by apply elem_of_nil in Hin.
    + intros v [=].
Qed.

Lemma changeset_frees_unless_returned_witness :
  ∃ r evs,
    JS_changeset (mkReply SQLITE_OK 0 55%N) true (mkInfo 1%N []) one_session =
      Some (r, log one_session evs) ∧
    (frees 55%N evs + hands_over r 55%N = 1)%nat ∧
    (∀ p, libc_free p ∉ evs) ∧
    (∀ v, r = Return v → v ≠ JsUndefined → ∀ w',
       finalize v w' = Some (tt, log w' [Engine (sqlite3_free 55%N)])).
Proof.
  apply (changeset_frees_unless_returned one_session (mkInfo 1%N []) the_session
           the_database (mkReply SQLITE_OK 0 55%N) true (one_session_usable _)).
  - reflexivity.
  - discriminate.
Defined.


(** ** Arguments the methods do not read *)

(** X5: attach and enable read their first argument only, changeset and
    close read none: adding, dropping or changing the other arguments never
    changes what a call does. *)
Theorem extra_arguments_ignored this a rest w :
  (∀ status,
     JS_attach status (mkInfo this (a :: rest)) w = JS_attach status (mkInfo this [a]) w) ∧
  JS_enable (mkInfo this (a :: rest)) w = JS_enable (mkInfo this [a]) w ∧
  (∀ args reply built,
     JS_changeset reply built (mkInfo this args) w =
     JS_changeset reply built (mkInfo this []) w) ∧
  (∀ args, JS_close (mkInfo this args) w = JS_close (mkInfo this []) w).
Proof.
  assert (Hlen : (Length (mkInfo this (a :: rest)) <? 1) = false).
  { apply Z.ltb_ge. unfold Length. cbn [Args length]. lia. }
  split; [|split; [|split]].
  - intros status. reflexivity.
  - unfold JS_enable. rewrite Hlen. reflexivity.
  - reflexivity.
  - reflexivity.
Qed.

(** ** The three ways to end a session *)

(** X6: close() and the destructor leave the same world behind, on an
    alive session as on a closed one; they differ only in that close()
    hands the session object back. *)
Theorem close_and_destructor_agree w info s :
  receiver w info s →
  (alive s = true → is_Some (database_heap w !! db s)) →
  ∃ w',
    JS_close info w = Some (Return (JsObject (This info)), w') ∧
    Session_dtor (This info) w = Some (tt, w').
Proof.
  intros Hs Hdb. destruct (alive s) eqn:Halive.
  - destruct (Hdb eq_refl) as [d Hd]. eexists. split.
    + by apply (JS_close_alive w info s d).
    + by apply (Session_dtor_alive w (This info) s d).
  - exists w. split.
    + by apply JS_close_dead with s.
    + by apply Session_dtor_dead with s.
Qed.

Lemma close_and_destructor_agree_witness :
  ∃ w',
    JS_close (mkInfo 1%N []) one_session = Some (Return (JsObject 1%N), w') ∧
    Session_dtor 1%N one_session = Some (tt, w').
Proof.
  apply (close_and_destructor_agree one_session (mkInfo 1%N []) the_session eq_refl).
  intros _. by eexists.
Defined.

(** X7: [CloseHandles] on its own does not touch the registry, and once it
    has lowered the flag neither close() nor the destructor will: both
    leave the world as it is, so a session closed this way stays listed in
    its connection's registry.  This is why the source asks for
    [RemoveSession] beforehand. *)
Theorem bare_CloseHandles_stays_registered w this s args :
  session_heap w !! this = Some s →
  alive s = true →
  registered w (db s) this →
  ∃ w1,
    Session_CloseHandles this w = Some (tt, w1) ∧
    database_heap w1 = database_heap w ∧
    registered w1 (db s) this ∧
    JS_close (mkInfo this args) w1 = Some (Return (JsObject this), w1) ∧
    Session_dtor this w1 = Some (tt, w1).
Proof.
  intros Hs Halive Hreg.
  exists (released this s w).
  assert (Hdead : session_heap (released this s w) !! this = Some (dead s)).
  { cbn. by rewrite lookup_insert_eq. }
  split; [by apply CloseHandles_alive|]. split; [done|]. split; [done|].
  split.
  - by apply (JS_close_dead (released this s w) (mkInfo this args) (dead s)).
  - by apply Session_dtor_dead with (dead s).
Qed.

Lemma bare_CloseHandles_stays_registered_witness :
  ∃ w1,
    Session_CloseHandles 1%N one_session = Some (tt, w1) ∧
    database_heap w1 = database_heap one_session ∧
    registered w1 10%N 1%N ∧
    JS_close (mkInfo 1%N []) w1 = Some (Return (JsObject 1%N), w1) ∧
    Session_dtor 1%N w1 = Some (tt, w1).
Proof.
  apply (bare_CloseHandles_stays_registered one_session 1%N the_session [] eq_refl eq_refl).
  exists the_database. split; [reflexivity|].
  change (1%N ∈ ({[ 1%N ]} : gset addr)). by apply elem_of_singleton.
Defined.

(** ** The constructor *)

Lemma Session_ctor_world w this d dbo handle ident :
  database_heap w !! d = Some dbo →
  d ≠ NULL →
  handle ≠ NULL →
  Session_ctor this d handle ident w =
    Some (tt, mkWorld (<[this := mkSession d handle ident true]> (session_heap w))
                      (<[d := mkDatabase (open dbo) (db_handle dbo)
                                         (sessions dbo ∪ {[this]})]> (database_heap w))
                      (trace w ++ [AddSession d this])).
Proof.
  intros Hd Hnd Hnh. apply N.eqb_neq in Hnd, Hnh.
  unfold Session_ctor, bind, write_session, assertion; cbn.
  rewrite Hnd, Hnh; cbn.
  unfold Database_AddSession, bind, read_database; cbn. by rewrite Hd.
Qed.

(** X8: constructing a session and closing it again is a round trip for
    the connection: its registry and flags are exactly as before, the closed
    session object stays behind with the fields it was given, and the trace
    shows the registration, the removal and the deletion of the handle, in
    this order. *)
Theorem construct_then_close_round_trip w this d dbo handle ident args :
  database_heap w !! d = Some dbo →
  this ∉ sessions dbo →
  d ≠ NULL →
  handle ≠ NULL →
  (Session_ctor this d handle ident >> JS_close (mkInfo this args)) w =
    Some (Return (JsObject this),
          mkWorld (<[this := mkSession d handle ident false]> (session_heap w))
                  (database_heap w)
                  (trace w ++ [AddSession d this; RemoveSession d this;
                               Engine (sqlite3session_delete handle)])).
Proof.
  intros Hd Hfresh Hnd Hnh. unfold bind at 1.
  rewrite (Session_ctor_world w this d dbo handle ident Hd Hnd Hnh).
  match goal with |- JS_close ?info ?w1 = _ =>
    rewrite (JS_close_alive w1 info (mkSession d handle ident true)
               (mkDatabase (open dbo) (db_handle dbo) (sessions dbo ∪ {[this]})))
  end.
  - f_equal. f_equal. unfold released, unregistered, dead; cbn.
    f_equal.
    + by rewrite insert_insert_eq.
    + rewrite insert_insert_eq.
      replace ((sessions dbo ∪ {[this]}) ∖ {[this]}) with (sessions dbo).
      2:{ apply set_eq. intros x.
          rewrite elem_of_difference, elem_of_union, elem_of_singleton.
          split; [intros Hx; split; [by left | by intros ->] |].
          intros [[Hx | Hx] Hne]; [done | by destruct Hne]. }
      destruct dbo. by apply insert_id.
    + by rewrite <- !app_assoc.
  - unfold receiver; cbn. by rewrite lookup_insert_eq.
  - unfold connection; cbn. by rewrite lookup_insert_eq.
  - reflexivity.
Qed.

Lemma construct_then_close_round_trip_witness :
  (Session_ctor 1%N 10%N 7%N 0%N >> JS_close (mkInfo 1%N [])) one_database =
    Some (Return (JsObject 1%N),
          mkWorld (<[1%N := mkSession 10%N 7%N 0%N false]> (session_heap one_database))
                  (database_heap one_database)
                  (trace one_database ++ [AddSession 10%N 1%N; RemoveSession 10%N 1%N;
                                          Engine (sqlite3session_delete 7%N)])).
Proof.
  apply (construct_then_close_round_trip one_database 1%N 10%N
           (mkDatabase true 100%N ∅) 7%N 0%N [] eq_refl).
  - apply not_elem_of_empty.
  - discriminate.
  - discriminate.
Defined.


Lemma releases_registration h t d p :
  releases h (t ++ [AddSession d p]) = releases h t.
Proof.
  unfold releases. rewrite count_occ_app, count_occ_cons_neq by done. cbn. lia.
Qed.

Lemma Session_ctor_consistent w this d dbo handle ident :
  consistent w →
  session_heap w !! this = None →
  database_heap w !! d = Some dbo →
  fresh_handle w handle →
  consistent
    (mkWorld (<[this := mkSession d handle ident true]> (session_heap w))
             (<[d := mkDatabase (open dbo) (db_handle dbo) (sessions dbo ∪ {[this]})]>
                (database_heap w))
             (trace w ++ [AddSession d this])).
Proof.
  intros Hw Hnew Hd [Hundeleted Hunheld].
  split; cbn [session_heap database_heap trace].
  - intros h. rewrite releases_registration. apply Hw.
  - intros p s Hp Halive. rewrite releases_registration.
    apply lookup_insert_Some in Hp as [[<- <-] | [Hne Hp]]; [done|].
    by apply (alive_unreleased _ Hw p).
  - intros p q s t Hp Hq Hs Ht Heq.
    apply lookup_insert_Some in Hp as [[<- <-] | [Hnp Hp]];
      apply lookup_insert_Some in Hq as [[<- <-] | [Hnq Hq]]; cbn in *.
    + done.
    + by destruct (Hunheld q t Hq Ht).
    + by destruct (Hunheld p s Hp Hs).
    + by apply (alive_handles_differ _ Hw p q s t).
  - intros p s Hp Halive.
    apply lookup_insert_Some in Hp as [[<- <-] | [Hne Hp]]; cbn.
    + rewrite lookup_insert_eq. by eexists.
    + destruct (decide (d = db s)) as [Heq | Hnd].
      * rewrite <- Heq, lookup_insert_eq. by eexists.
      * rewrite lookup_insert_ne by done. by apply (alive_has_connection _ Hw p).
  - intros d' dbo' p Hd' Hin.
    destruct (decide (this = p)) as [<- | Hne].
    { rewrite lookup_insert_eq. by eexists. }
    rewrite lookup_insert_ne by done.
    apply lookup_insert_Some in Hd' as [[<- <-] | [Hnd Hd']].
    + cbn in Hin. apply elem_of_union in Hin as [Hin | Hin].
      * by apply (registered_exists _ Hw d dbo).
      * apply elem_of_singleton in Hin. by destruct Hne.
    + by apply (registered_exists _ Hw d' dbo').
Qed.

Lemma Session_ctor_registry_agrees w this d dbo handle ident :
  registry_agrees w →
  session_heap w !! this = None →
  database_heap w !! d = Some dbo →
  registry_agrees
    (mkWorld (<[this := mkSession d handle ident true]> (session_heap w))
             (<[d := mkDatabase (open dbo) (db_handle dbo) (sessions dbo ∪ {[this]})]>
                (database_heap w))
             (trace w ++ [AddSession d this])).
Proof.
  intros Hw Hnew Hd.
  split; cbn [session_heap database_heap trace]; unfold registered;
    cbn [session_heap database_heap trace].
  - intros p s Hp Halive.
    apply lookup_insert_Some in Hp as [[<- <-] | [Hne Hp]]; cbn.
    + eexists. rewrite lookup_insert_eq. split; [done|]. cbn.
      apply elem_of_union_r. by apply elem_of_singleton.
    + destruct (alive_registered _ Hw p s Hp Halive) as (dbo' & Hd' & Hin).
      destruct (decide (d = db s)) as [Heq | Hnd].
      * rewrite <- Heq in *. eexists. rewrite lookup_insert_eq. split; [done|]. cbn.
        rewrite Hd in Hd'. injection Hd' as <-. by apply elem_of_union_l.
      * exists dbo'. by rewrite lookup_insert_ne.
  - intros d' dbo' p Hd' Hin.
    assert (Hold : ∀ dbo0, database_heap w !! d' = Some dbo0 → p ∈ sessions dbo0 →
              ∃ s, <[this := mkSession d handle ident true]> (session_heap w) !! p = Some s ∧
                   alive s = true ∧ db s = d').
    { intros dbo0 Hd0 Hin0.
      destruct (registered_alive _ Hw d' dbo0 p Hd0 Hin0) as (s & Hp & Halive & Hdb).
      exists s. split; [|done]. rewrite lookup_insert_ne; [done|].
      intros <-. congruence. }
    apply lookup_insert_Some in Hd' as [[<- <-] | [Hnd Hd']].
    + cbn in Hin. apply elem_of_union in Hin as [Hin | Hin].
      * by apply (Hold dbo).
      * apply elem_of_singleton in Hin as ->. eexists.
        rewrite lookup_insert_eq. done.
    + by apply (Hold dbo').
Qed.

(** X9: the constructor keeps the worlds consistent and the registries in
    agreement with the flags.  Given a free address, an existing connection
    and a handle not in use, it returns; the new session is alive with the
    fields it was given and is listed in the registry of its connection;
    every other session object is as before. *)
Theorem Session_ctor_keeps_invariants w this d handle ident :
  consistent w →
  session_heap w !! this = None →
  is_Some (database_heap w !! d) →
  d ≠ NULL →
  handle ≠ NULL →
  fresh_handle w handle →
  ∃ w',
    Session_ctor this d handle ident w = Some (tt, w') ∧
    consistent w' ∧
    (registry_agrees w → registry_agrees w') ∧
    session_heap w' !! this = Some (mkSession d handle ident true) ∧
    registered w' d this ∧
    (∀ q, q ≠ this → session_heap w' !! q = session_heap w !! q).
Proof.
  intros Hw Hnew [dbo Hd] Hnd Hnh Hfresh.
  eexists. split; [by apply (Session_ctor_world w this d dbo)|].
  split; [by apply Session_ctor_consistent|].
  split; [intros Hagree; by apply Session_ctor_registry_agrees|].
  unfold registered. cbn [session_heap database_heap].
  split; [by rewrite lookup_insert_eq|]. split.
  - eexists. rewrite lookup_insert_eq. split; [done|]. cbn [sessions].
    apply elem_of_union_r. by apply elem_of_singleton.
  - intros q Hq. by rewrite lookup_insert_ne.
Qed.

Lemma one_database_consistent : consistent one_database.
Proof.
  split; cbn.
  - intros h. unfold releases. cbn. lia.
  - intros p s Hp. by rewrite lookup_empty in Hp.
  - intros p q s t Hp. by rewrite lookup_empty in Hp.
  - intros p s Hp. by rewrite lookup_empty in Hp.
  - intros d dbo p Hd Hin. apply lookup_singleton_Some in Hd as [<- <-].
    cbn in Hin. by apply not_elem_of_empty in Hin.
Qed.

Lemma Session_ctor_keeps_invariants_witness :
  ∃ w',
    Session_ctor 1%N 10%N 7%N 0%N one_database = Some (tt, w') ∧
    consistent w' ∧
    (registry_agrees one_database → registry_agrees w') ∧
    session_heap w' !! 1%N = Some (mkSession 10%N 7%N 0%N true) ∧
    registered w' 10%N 1%N ∧
    (∀ q, q ≠ 1%N → session_heap w' !! q = session_heap one_database !! q).
Proof.
  apply (Session_ctor_keeps_invariants one_database 1%N 10%N 7%N 0%N
           one_database_consistent eq_refl).
  - by eexists.
  - discriminate.
  - discriminate.
  - split; [reflexivity|]. intros q t Hq. cbn in Hq. by rewrite lookup_empty in Hq.
Defined.


(** ** Properties of whole runs *)

Lemma remove_then_close_world w d dbo q t :
  session_heap w !! q = Some t →
  database_heap w !! d = Some dbo →
  (Database_RemoveSession d q >> Session_CloseHandles q) w =
    Some (tt, step_world d dbo q t w).
Proof.
  intros Hq Hd. unfold bind, step_world.
  rewrite (RemoveSession_unregistered _ _ _ _ Hd).
  destruct (alive t) eqn:Halive.
  - by apply CloseHandles_alive.
  - by apply CloseHandles_dead with t.
Qed.

Lemma step_world_database w d dbo q t :
  database_heap (step_world d dbo q t w) !! d =
    Some (mkDatabase (open dbo) (db_handle dbo) (sessions dbo ∖ {[q]})).
Proof.
  unfold step_world. destruct (alive t); cbn; by rewrite lookup_insert_eq.
Qed.

Section ShutdownInvariant.

(** A property of worlds that each step of the shutdown keeps. *)
Variable P : World → Prop.
Variable d : addr.

Hypothesis step_keeps : ∀ w dbo q t,
  consistent w → P w →
  session_heap w !! q = Some t →
  database_heap w !! d = Some dbo →
  q ∈ sessions dbo →
  P (step_world d dbo q t w).

Hypothesis shut_keeps : ∀ w dbo,
  consistent w → P w →
  database_heap w !! d = Some dbo →
  P (shut_world d dbo w).

Lemma shut_down_loop_invariant l :
  NoDup l →
  ∀ w dbo,
    consistent w → P w →
    database_heap w !! d = Some dbo →
    (∀ q, q ∈ l → q ∈ sessions dbo) →
    ∃ w',
      for_each (λ q, Database_RemoveSession d q >> Session_CloseHandles q) l w
        = Some (tt, w') ∧
      consistent w' ∧ P w' ∧ is_Some (database_heap w' !! d).
Proof.
  induction 1 as [|q l Hfresh Hnodup IH]; intros w dbo Hw HP Hd Hall.
  - exists w. by eauto.
  - assert (Hin : q ∈ sessions dbo) by (apply Hall; by left).
    destruct (registered_exists _ Hw d dbo q Hd Hin) as [t Hq].
    pose proof (remove_then_close_world w d dbo q t Hq Hd) as Hstep.
    destruct (remove_then_close_consistent w d q Hw) as (w1 & Hrun1 & Hw1 & _);
      [by eauto | by eauto |].
    rewrite Hstep in Hrun1. injection Hrun1 as <-.
    destruct (IH (step_world d dbo q t w) _ Hw1
                (step_keeps w dbo q t Hw HP Hq Hd Hin)
                (step_world_database w d dbo q t))
      as (w' & Hrun & Hw' & HP' & Hd').
    { intros q' Hq'. cbn. apply elem_of_difference. split; [apply Hall; by right|].
      intros Heq. apply elem_of_singleton in Heq as ->. by apply Hfresh. }
    exists w'. split; [|done].
    cbn [for_each]. unfold bind at 1. by rewrite Hstep.
Qed.

Lemma Database_CloseHandles_invariant w :
  consistent w → P w →
  is_Some (database_heap w !! d) →
  ∃ w', Database_CloseHandles d w = Some (tt, w') ∧ P w'.
Proof.
  intros Hw HP [dbo Hd].
  unfold Database_CloseHandles, bind at 1. unfold read_database at 1. rewrite Hd.
  destruct (open dbo); [|by exists w].
  destruct (shut_down_loop_invariant (elements (sessions dbo)) (NoDup_elements _)
              w dbo Hw HP Hd) as (w1 & Hrun & Hw1 & HP1 & [dbo1 Hd1]).
  { intros q Hq. by apply elem_of_elements. }
  exists (shut_world d dbo1 w1). split; [|by apply shut_keeps].
  unfold bind at 1. rewrite Hrun. unfold bind, read_database. by rewrite Hd1.
Qed.

End ShutdownInvariant.

Section RunInvariant.

(** A property of worlds that every permitted operation keeps. *)
Variable P : World → Prop.
Variable permitted : Op → bool.

Hypothesis exec_keeps : ∀ w o,
  consistent w → P w → permitted o = true → targets w o →
  ∃ w', exec o w = Some (tt, w') ∧ P w'.

Lemma run_invariant ops :
  ∀ w, consistent w → P w →
    Forall (targets w) ops →
    forallb permitted ops = true →
    ∃ w', run ops w = Some (tt, w') ∧ consistent w' ∧ grows w w' ∧ P w'.
Proof.
  induction ops as [|o ops IH]; intros w Hw HP Hall Hperm.
  - exists w. split; [done|]. split; [done|]. split; [apply grows_refl | done].
  - inversion Hall as [|? ? Ho Hops]; subst.
    cbn [forallb] in Hperm. apply andb_true_iff in Hperm as [Hpo Hpops].
    destruct (exec_consistent w o Hw Ho) as (w1 & Hrun1 & Hw1 & Hg1).
    destruct (exec_keeps w o Hw HP Hpo Ho) as (w1' & Hrun1' & HP1).
    rewrite Hrun1 in Hrun1'. injection Hrun1' as <-.
    destruct (IH w1 Hw1 HP1) as (w2 & Hrun2 & Hw2 & Hg2 & HP2); [|done|].
    { eapply Forall_impl; [exact Hops|]. intros o'. by apply grows_targets. }
    exists w2. split; [|split; [done|split; [by apply grows_trans with w1 | done]]].
    unfold run in *. cbn [for_each]. unfold bind at 1. by rewrite Hrun1.
Qed.

End RunInvariant.

(** X10: over any run from a consistent world, a session object never
    changes its connection, its handle or its identity, a closed session
    stays closed, and no session object appears or disappears. *)
Theorem closed_is_terminal w0 ops :
  consistent w0 →
  Forall (targets w0) ops →
  ∃ w,
    run ops w0 = Some (tt, w) ∧
    (∀ p, session_heap w0 !! p = None → session_heap w !! p = None) ∧
    (∀ p s, session_heap w0 !! p = Some s →
       ∃ s', session_heap w !! p = Some s' ∧
             db s' = db s ∧ session_handle s' = session_handle s ∧ id s' = id s ∧
             (alive s = false → alive s' = false)).
Proof.
  intros Hw0 Hall.
  destruct (run_consistent ops w0 Hw0 Hall) as (w & Hrun & _ & Hg).
  exists w. split; [done|]. split.
  - intros p Hp. pose proof (sessions_step _ _ Hg p) as Hstep.
    rewrite Hp in Hstep. by inversion Hstep.
  - intros p s Hp. pose proof (sessions_step _ _ Hg p) as Hstep.
    rewrite Hp in Hstep. inversion Hstep as [? s' [-> | [_ ->]] |]; subst.
    + by exists s.
    + by exists (dead s).
Qed.

Lemma closed_is_terminal_witness :
  ∃ w,
    run teardown two_sessions = Some (tt, w) ∧
    (∀ p, session_heap two_sessions !! p = None → session_heap w !! p = None) ∧
    (∀ p s, session_heap two_sessions !! p = Some s →
       ∃ s', session_heap w !! p = Some s' ∧
             db s' = db s ∧ session_handle s' = session_handle s ∧ id s' = id s ∧
             (alive s = false → alive s' = false)).
Proof.
  apply (closed_is_terminal two_sessions teardown two_sessions_consistent).
  repeat constructor; by eexists.
Defined.


Lemma exec_method_world w (m : M Completion) r w' :
  m w = Some (r, w') → (m >> ret tt) w = Some (tt, w').
Proof. intros Hm. unfold bind. by rewrite Hm. Qed.

(** Every observing method, run as an operation, ends in [log w evs]. *)
Lemma exec_observes w s (m : M Completion) :
  observes w s (m w) →
  ∃ evs, (m >> ret tt) w = Some (tt, log w evs) ∧
         forallb (query_event (session_handle s)) evs = true ∧
         (alive s = false → evs = []).
Proof.
  intros (r & evs & Hm & Hevs & Hdead). exists evs.
  split; [by apply exec_method_world with r | done].
Qed.

Lemma registry_agrees_log w evs : registry_agrees w → registry_agrees (log w evs).
Proof. intros [H1 H2]. by split. Qed.

Lemma registry_agrees_closed w this s dbo :
  registry_agrees w →
  session_heap w !! this = Some s →
  database_heap w !! db s = Some dbo →
  registry_agrees (released this s (unregistered (db s) dbo this w)).
Proof.
  intros Hw Hs Hd.
  split; unfold registered; cbn [released unregistered session_heap database_heap].
  - intros q t Hq Halive.
    apply lookup_insert_Some in Hq as [[<- <-] | [Hne Hq]]; [done|].
    destruct (alive_registered _ Hw q t Hq Halive) as (dbo' & Hd' & Hin).
    destruct (decide (db s = db t)) as [Heq | Hnd].
    + rewrite <- Heq in *. rewrite Hd in Hd'. injection Hd' as <-.
      eexists. rewrite lookup_insert_eq. split; [done|]. cbn [sessions].
      apply elem_of_difference. split; [done|].
      intros Hx. apply elem_of_singleton in Hx. by destruct Hne.
    + exists dbo'. by rewrite lookup_insert_ne.
  - intros d' dbo' q Hd' Hin.
    assert (Hold : ∀ dbo0, database_heap w !! d' = Some dbo0 → q ∈ sessions dbo0 →
              q ≠ this →
              ∃ t, <[this := dead s]> (session_heap w) !! q = Some t ∧
                   alive t = true ∧ db t = d').
    { intros dbo0 Hd0 Hin0 Hne.
      destruct (registered_alive _ Hw d' dbo0 q Hd0 Hin0) as (t & Hq & Halive & Hdb).
      exists t. by rewrite lookup_insert_ne. }
    apply lookup_insert_Some in Hd' as [[<- <-] | [Hnd Hd']].
    + cbn [sessions] in Hin. apply elem_of_difference in Hin as [Hin Hne].
      apply (Hold dbo); [done | done |].
      intros ->. apply Hne. by apply elem_of_singleton.
    + apply (Hold dbo'); [done | done |].
      intros ->.
      destruct (registered_alive _ Hw d' dbo' this Hd' Hin) as (t & Ht & _ & Hdb).
      rewrite Hs in Ht. injection Ht as <-. by destruct Hnd.
Qed.

Lemma registry_agrees_shut w d dbo :
  registry_agrees w →
  database_heap w !! d = Some dbo →
  registry_agrees (shut_world d dbo w).
Proof.
  intros Hw Hd.
  split; unfold registered; cbn [shut_world session_heap database_heap].
  - intros q t Hq Halive.
    destruct (alive_registered _ Hw q t Hq Halive) as (dbo' & Hd' & Hin).
    destruct (decide (d = db t)) as [Heq | Hnd].
    + rewrite <- Heq in *. rewrite Hd in Hd'. injection Hd' as <-.
      eexists. rewrite lookup_insert_eq. by split.
    + exists dbo'. by rewrite lookup_insert_ne.
  - intros d' dbo' q Hd' Hin.
    apply lookup_insert_Some in Hd' as [[<- <-] | [Hnd Hd']].
    + by apply (registered_alive _ Hw d dbo).
    + by apply (registered_alive _ Hw d' dbo').
Qed.

Lemma exec_keeps_registry w o :
  consistent w → registry_agrees w → keeps_protocol o = true → targets w o →
  ∃ w', exec o w = Some (tt, w') ∧ registry_agrees w'.
Proof.
  intros Hw Hagree Hprot Ht.
  assert (Hdb : ∀ p s, session_heap w !! p = Some s → alive s = true →
            is_Some (database_heap w !! db s)).
  { intros p s Hs Halive. by apply (alive_has_connection _ Hw p). }
  destruct o; cbn in Ht; cbn [exec]; try discriminate Hprot.
  - destruct Ht as [s Hs].
    destruct (exec_observes w s (JS_attach status info)) as (evs & Hrun & _);
      [apply JS_attach_observes; [done | by apply (Hdb (This info))] |].
    exists (log w evs). split; [done | by apply registry_agrees_log].
  - destruct Ht as [s Hs].
    destruct (exec_observes w s (JS_enable info)) as (evs & Hrun & _);
      [apply JS_enable_observes; [done | by apply (Hdb (This info))] |].
    exists (log w evs). split; [done | by apply registry_agrees_log].
  - destruct Ht as [s Hs].
    destruct (exec_observes w s (JS_changeset reply built info)) as (evs & Hrun & _);
      [apply JS_changeset_observes; [done | by apply (Hdb (This info))] |].
    exists (log w evs). split; [done | by apply registry_agrees_log].
  - destruct Ht as [s Hs]. destruct (alive s) eqn:Halive.
    + destruct (Hdb _ _ Hs Halive) as [dbo Hd].
      eexists. split.
      * apply exec_method_world with (Return (JsObject (This info))).
        by apply (JS_close_alive w info s dbo).
      * by apply registry_agrees_closed.
    + exists w. split; [|done].
      apply exec_method_world with (Return (JsObject (This info))).
      by apply JS_close_dead with s.
  - destruct Ht as [s Hs]. destruct (alive s) eqn:Halive.
    + destruct (Hdb _ _ Hs Halive) as [dbo Hd].
      eexists. split; [by apply (Session_dtor_alive w this s dbo)|].
      by apply registry_agrees_closed.
    + exists w. split; [by apply Session_dtor_dead with s | done].
  - apply (Database_CloseHandles_invariant registry_agrees d); try done.
    + intros w1 dbo q t Hw1 Hagree1 Hq Hd Hin.
      destruct (registered_alive _ Hagree1 d dbo q Hd Hin) as (t' & Hq' & Halive & Hdbt).
      rewrite Hq in Hq'. injection Hq' as <-.
      unfold step_world. rewrite Halive. subst d.
      by apply registry_agrees_closed.
    + intros w1 dbo _ Hagree1 Hd. by apply registry_agrees_shut.
Qed.

(** X11: from a consistent world whose registries list exactly the alive
    sessions, every run of the four methods, the destructor and the
    connection's shutdown ends in a world where they still do: an alive
    session is always in the registry of its connection, and a registry
    never lists a closed session.  (The bare [CloseHandles] is the one
    operation left out; X7 shows it breaks this.) *)
Theorem registry_lists_alive_sessions w0 ops :
  consistent w0 →
  registry_agrees w0 →
  Forall (targets w0) ops →
  forallb keeps_protocol ops = true →
  ∃ w, run ops w0 = Some (tt, w) ∧ registry_agrees w.
Proof.
  intros Hw0 Hagree Hall Hprot.
  destruct (run_invariant registry_agrees keeps_protocol exec_keeps_registry
              ops w0 Hw0 Hagree Hall Hprot) as (w & Hrun & _ & _ & Hw).
  by exists w.
Qed.

Lemma two_sessions_registry_agrees : registry_agrees two_sessions.
Proof.
  split.
  - intros p s Hp _. cbn in Hp.
    exists (mkDatabase true 100%N {[ 1%N; 2%N ]}).
    apply lookup_insert_Some in Hp as [[<- <-] | [_ Hp]].
    + split; [reflexivity|]. apply elem_of_union_r. by apply elem_of_singleton.
    + apply lookup_singleton_Some in Hp as [<- <-].
      split; [reflexivity|]. apply elem_of_union_l. by apply elem_of_singleton.
  - intros d dbo p Hd Hin. cbn in Hd.
    apply lookup_singleton_Some in Hd as [<- <-]. cbn in Hin.
    apply elem_of_union in Hin as [Hin | Hin]; apply elem_of_singleton in Hin as ->;
      by eexists.
Qed.

Lemma registry_lists_alive_sessions_witness :
  ∃ w, run teardown two_sessions = Some (tt, w) ∧ registry_agrees w.
Proof.
  apply (registry_lists_alive_sessions two_sessions teardown two_sessions_consistent
           two_sessions_registry_agrees).
  - repeat constructor; by eexists.
  - reflexivity.
Defined.


Lemma no_use_after_release_snoc t e :
  no_use_after_release t →
  (∀ h, uses e = Some h → releases h t = 0%nat) →
  no_use_after_release (t ++ [e]).
Proof.
  intros Ht He before e' after h Hsplit Huse.
  destruct after as [|x after _] using rev_ind.
  - apply app_inj_tail in Hsplit as [<- <-]. by apply He.
  - rewrite app_comm_cons, app_assoc in Hsplit.
    apply app_inj_tail in Hsplit as [-> _].
    by apply (Ht before e' after h).
Qed.

Lemma no_use_after_release_quiet t e :
  no_use_after_release t → uses e = None → no_use_after_release (t ++ [e]).
Proof.
  intros Ht He. apply no_use_after_release_snoc; [done|]. intros h. by rewrite He.
Qed.

Lemma query_event_uses h e h' :
  query_event h e = true → uses e = Some h' → h' = h.
Proof.
  destruct e as [[] | | | |]; cbn; try discriminate;
    intros Heq [= <-]; by apply N.eqb_eq.
Qed.

Lemma query_event_is_release h e : query_event h e = true → is_release e = false.
Proof. by destruct e as [[] | | | |]. Qed.

Lemma no_use_after_release_alive t h evs :
  no_use_after_release t →
  releases h t = 0%nat →
  forallb (query_event h) evs = true →
  no_use_after_release (t ++ evs).
Proof.
  intros Ht Hzero. induction evs as [|e evs IH] using rev_ind; intros Hevs.
  - by rewrite app_nil_r.
  - rewrite forallb_app in Hevs. apply andb_true_iff in Hevs as [Hevs He].
    cbn in He. rewrite andb_true_r in He.
    rewrite app_assoc. apply no_use_after_release_snoc; [by apply IH|].
    intros h' Huse. rewrite (query_event_uses _ _ _ He Huse).
    rewrite releases_app, Hzero.
    apply releases_quiet. apply Forall_forall. intros x Hx.
    apply (query_event_is_release h).
    rewrite forallb_forall in Hevs. apply Hevs. by apply list_elem_of_In.
Qed.

Lemma no_use_after_release_observed w s evs :
  no_use_after_release (trace w) →
  (evs ≠ [] → releases (session_handle s) (trace w) = 0%nat) →
  forallb (query_event (session_handle s)) evs = true →
  no_use_after_release (trace w ++ evs).
Proof.
  intros Ht Hzero Hevs. destruct (decide (evs = [])) as [-> | Hne].
  - by rewrite app_nil_r.
  - by apply (no_use_after_release_alive _ (session_handle s)); [| apply Hzero |].
Qed.

Lemma exec_keeps_order w o :
  consistent w → no_use_after_release (trace w) → targets w o →
  ∃ w', exec o w = Some (tt, w') ∧ no_use_after_release (trace w').
Proof.
  intros Hw Horder Ht.
  assert (Hdb : ∀ p s, session_heap w !! p = Some s → alive s = true →
            is_Some (database_heap w !! db s)).
  { intros p s Hs Halive. by apply (alive_has_connection _ Hw p). }
  assert (Hobs : ∀ p s evs, session_heap w !! p = Some s →
            forallb (query_event (session_handle s)) evs = true →
            (alive s = false → evs = []) →
            no_use_after_release (trace (log w evs))).
  { intros p s evs Hs Hevs Hdead. apply (no_use_after_release_observed w s); try done.
    intros Hne. apply (alive_unreleased _ Hw p s Hs).
    destruct (alive s); [done|]. by destruct Hne, Hdead. }
  assert (Hclosed : ∀ d dbo p s,
            no_use_after_release (trace (released p s (unregistered d dbo p w)))).
  { intros d dbo p s. cbn. by do 2 (apply no_use_after_release_quiet; [|done]). }
  destruct o; cbn in Ht; cbn [exec].
  - destruct Ht as [s Hs].
    destruct (exec_observes w s (JS_attach status info)) as (evs & Hrun & Hevs & Hdead);
      [apply JS_attach_observes; [done | by apply (Hdb (This info))] |].
    exists (log w evs). split; [done | by apply (Hobs (This info) s)].
  - destruct Ht as [s Hs].
    destruct (exec_observes w s (JS_enable info)) as (evs & Hrun & Hevs & Hdead);
      [apply JS_enable_observes; [done | by apply (Hdb (This info))] |].
    exists (log w evs). split; [done | by apply (Hobs (This info) s)].
  - destruct Ht as [s Hs].
    destruct (exec_observes w s (JS_changeset reply built info))
      as (evs & Hrun & Hevs & Hdead);
      [apply JS_changeset_observes; [done | by apply (Hdb (This info))] |].
    exists (log w evs). split; [done | by apply (Hobs (This info) s)].
  - destruct Ht as [s Hs]. destruct (alive s) eqn:Halive.
    + destruct (Hdb _ _ Hs Halive) as [dbo Hd].
      eexists. split; [|apply (Hclosed (db s) dbo (This info) s)].
      apply exec_method_world with (Return (JsObject (This info))).
      by apply (JS_close_alive w info s dbo).
    + exists w. split; [|done].
      apply exec_method_world with (Return (JsObject (This info))).
      by apply JS_close_dead with s.
  - destruct Ht as [s Hs]. destruct (alive s) eqn:Halive.
    + destruct (Hdb _ _ Hs Halive) as [dbo Hd].
      eexists. split; [by apply (Session_dtor_alive w this s dbo)|].
      apply Hclosed.
    + exists w. split; [by apply Session_dtor_dead with s | done].
  - destruct Ht as [s Hs]. destruct (alive s) eqn:Halive.
    + exists (released this s w). split; [by apply CloseHandles_alive|].
      cbn. by apply no_use_after_release_quiet.
    + exists w. split; [by apply CloseHandles_dead with s | done].
  - apply (Database_CloseHandles_invariant (λ w, no_use_after_release (trace w)) d);
      try done.
    + intros w1 dbo q t _ Horder1 _ _ _. unfold step_world.
      destruct (alive t); cbn.
      * by do 2 (apply no_use_after_release_quiet; [|done]).
      * by apply no_use_after_release_quiet.
    + intros w1 dbo _ Horder1 _. cbn. by apply no_use_after_release_quiet.
Qed.

(** X12: the engine is never handed a deleted session handle.  If, in the
    trace so far, no attach, enable or changeset call of the engine comes
    after the deletion of its handle, then this is still so after any run of
    operations from a consistent world. *)
Theorem no_call_on_deleted_handle w0 ops :
  consistent w0 →
  no_use_after_release (trace w0) →
  Forall (targets w0) ops →
  ∃ w, run ops w0 = Some (tt, w) ∧ no_use_after_release (trace w).
Proof.
  intros Hw0 Horder Hall.
  destruct (run_invariant (λ w, no_use_after_release (trace w)) (λ _, true)
              (λ w o Hw HP _ Ht, exec_keeps_order w o Hw HP Ht)
              ops w0 Hw0 Horder Hall) as (w & Hrun & _ & _ & Hw).
  { by apply forallb_forall. }
  by exists w.
Qed.

Lemma two_sessions_order : no_use_after_release (trace two_sessions).
Proof.
  change (no_use_after_release ([] ++ [AddSession 10%N 1%N] ++ [AddSession 10%N 2%N])).
  rewrite app_assoc.
  do 2 (apply no_use_after_release_quiet; [|done]).
  intros before e after h Hsplit. by destruct before.
Qed.

Lemma no_call_on_deleted_handle_witness :
  ∃ w, run (call_attach SQLITE_OK (mkInfo 2%N []) :: teardown ++
            [call_attach SQLITE_OK (mkInfo 2%N []); call_enable (mkInfo 1%N [JsBoolean true])])
           two_sessions = Some (tt, w) ∧
       no_use_after_release (trace w).
Proof.
  apply (no_call_on_deleted_handle two_sessions _ two_sessions_consistent
           two_sessions_order).
  repeat constructor; by eexists.
Defined.


(** ** The constructor as JavaScript calls it *)

Example JS_new_runs :
  JS_new (constructing 10%N "main" 0%N) true false None (mkCreateReply SQLITE_OK 7%N) 1%N
         one_database =
    Some (Return (JsObject 1%N), constructing 10%N "main" 1%N,
          [sqlite3session_create 100%N (Some "main"); SetFrozen 1%N (JsObject 10%N)],
          one_session).
Proof. reflexivity. Qed.

(** X13: a session cannot be constructed from outside, nor on a connection
    that is closed or busy.  Without a pending privileged call [JS_new]
    throws "Disabled constructor" in any world; with one, on a connection
    that is not open or is busy, it throws a usage error.  In each case the
    world and the addon are as before and the engine was not asked to
    create anything. *)
Theorem JS_new_rejected w addon busy converted reply this :
  (privileged_info addon = None →
   ∀ construct,
     JS_new addon construct busy converted reply this w =
       Some (Throw (TypeError "Disabled constructor"), addon, [], w)) ∧
  (∀ privileged dbo,
     privileged_info addon = Some privileged →
     database_heap w !! This privileged = Some dbo →
     open dbo = false ∨ busy = true →
     ∃ message,
       JS_new addon true busy converted reply this w =
         Some (Throw (TypeError message), addon, [], w)).
Proof.
  split.
  - intros Hnone construct. unfold JS_new. by rewrite Hnone.
  - intros privileged dbo Hsome Hd Hcase. unfold JS_new. rewrite Hsome.
    unfold bind, assertion, read_database. rewrite Hd.
    destruct (open dbo) eqn:Hopen; cbn.
    + destruct Hcase as [? | ->]; [done|]. by eexists.
    + by eexists.
Qed.

Lemma JS_new_rejected_witness :
  ∃ message,
    JS_new (constructing 10%N "main" 0%N) true true None (mkCreateReply SQLITE_OK 7%N) 1%N
           one_database =
      Some (Throw (TypeError message), constructing 10%N "main" 0%N, [], one_database).
Proof.
  apply (proj2 (JS_new_rejected one_database (constructing 10%N "main" 0%N) true None
                  (mkCreateReply SQLITE_OK 7%N) 1%N)
           (privileged_call 10%N "main") (mkDatabase true 100%N ∅) eq_refl eq_refl).
  by right.
Defined.

(** X14: when the engine refuses to create the session, [JS_new] throws
    the database error and constructs nothing: no session object appears, no
    registry changes, and no identity is drawn from the counter. *)
Theorem JS_new_engine_failure w d dbo name n busy converted reply this :
  database_heap w !! d = Some dbo →
  open dbo = true →
  busy = false →
  create_status reply ≠ SQLITE_OK →
  JS_new (constructing d name n) true busy converted reply this w =
    Some (Throw (SqliteError (db_handle dbo)), constructing d name n,
          [sqlite3session_create (db_handle dbo) (Some (c_str name))],
          log w [Engine (sqlite3_errmsg (db_handle dbo))]).
Proof.
  intros Hd Hopen -> Hfail. apply Z.eqb_neq in Hfail.
  unfold JS_new, constructing, privileged_call; cbn.
  unfold bind, assertion, read_database, Database_ThrowDatabaseError; cbn.
  rewrite Hd; cbn. rewrite Hopen; cbn. rewrite Hfail; cbn.
  unfold bind, read_database; cbn. by rewrite Hd.
Qed.

Lemma JS_new_engine_failure_witness :
  JS_new (constructing 10%N "main" 0%N) true false None (mkCreateReply 1 0%N) 1%N
         one_database =
    Some (Throw (SqliteError 100%N), constructing 10%N "main" 0%N,
          [sqlite3session_create 100%N (Some "main")],
          log one_database [Engine (sqlite3_errmsg 100%N)]).
Proof.
  apply (JS_new_engine_failure one_database 10%N (mkDatabase true 100%N ∅) "main" 0%N
           false None (mkCreateReply 1 0%N) 1%N eq_refl eq_refl eq_refl).
  discriminate.
Defined.

#[local] Arguments Session_ctor : simpl never.

Lemma JS_new_world w addon privileged dbo converted reply this :
  privileged_info addon = Some privileged →
  database_heap w !! This privileged = Some dbo →
  open dbo = true →
  create_status reply = SQLITE_OK →
  This privileged ≠ NULL →
  create_handle reply ≠ NULL →
  JS_new addon true false converted reply this w =
    Some (Return (JsObject this),
          mkAddon (Some privileged) ((next_id addon + 1) mod UINT64_MODULUS)%N,
          [sqlite3session_create (db_handle dbo)
             (c_str_of (Utf8Value_of converted (arg privileged 1)));
           SetFrozen this (arg privileged 0)],
          mkWorld (<[this := mkSession (This privileged) (create_handle reply)
                                       (next_id addon) true]> (session_heap w))
                  (<[This privileged :=
                       mkDatabase (open dbo) (db_handle dbo) (sessions dbo ∪ {[this]})]>
                     (database_heap w))
                  (trace w ++ [AddSession (This privileged) this])).
Proof.
  intros Hsome Hd Hopen Hok Hnd Hnh.
  unfold JS_new. rewrite Hsome.
  unfold bind, assertion, read_database; cbn.
  rewrite Hd; cbn. rewrite Hopen; cbn. rewrite Hok; cbn.
  rewrite (Session_ctor_world w this (This privileged) dbo (create_handle reply)
             (next_id addon) Hd Hnd Hnh).
  by rewrite Hopen, Hsome.
Qed.

(** X15: on an open connection that is not busy, when the engine creates
    the session, [JS_new] returns the new session object: alive, bound to
    that connection and to the engine's handle, carrying the identity the
    counter showed, and listed in the connection's registry.  The counter
    has advanced by one.  The engine was asked once, with the connection's
    handle and the schema name of the privileged call read as a C string:
    for a string, its text up to the first NUL character (the whole string
    when it has none); for any other value, the text the host converts it
    to, cut the same way, or [NULL] when the conversion fails.  The other
    sessions are untouched; a consistent world stays consistent. *)
Theorem JS_new_constructs w addon privileged dbo converted reply this :
  privileged_info addon = Some privileged →
  database_heap w !! This privileged = Some dbo →
  open dbo = true →
  create_status reply = SQLITE_OK →
  This privileged ≠ NULL →
  create_handle reply ≠ NULL →
  session_heap w !! this = None →
  ∃ zDb w',
    JS_new addon true false converted reply this w =
      Some (Return (JsObject this),
            mkAddon (Some privileged) ((next_id addon + 1) mod UINT64_MODULUS)%N,
            [sqlite3session_create (db_handle dbo) zDb;
             SetFrozen this (arg privileged 0)],
            w') ∧
    (∀ name, arg privileged 1 = JsString name → zDb = Some (c_str name)) ∧
    (∀ name, arg privileged 1 = JsString name → contains_NUL name = false →
       zDb = Some name) ∧
    (IsString (arg privileged 1) = false → zDb = c_str <$> converted) ∧
    session_heap w' !! this =
      Some (mkSession (This privileged) (create_handle reply) (next_id addon) true) ∧
    registered w' (This privileged) this ∧
    (∀ q, q ≠ this → session_heap w' !! q = session_heap w !! q) ∧
    trace w' = trace w ++ [AddSession (This privileged) this] ∧
    (consistent w → fresh_handle w (create_handle reply) → consistent w') ∧
    (registry_agrees w → registry_agrees w').
Proof.
  intros Hsome Hd Hopen Hok Hnd Hnh Hnew.
  do 2 eexists. split; [by apply (JS_new_world w addon privileged dbo)|].
  split; [by intros name ->|]. split.
  { intros name -> Hnone. cbn. by rewrite (c_str_without_NUL name Hnone). }
  split; [by destruct (arg privileged 1)|].
  unfold registered. cbn [session_heap database_heap trace].
  split; [by rewrite lookup_insert_eq|]. split.
  { eexists. rewrite lookup_insert_eq. split; [done|]. cbn [sessions].
    apply elem_of_union_r. by apply elem_of_singleton. }
  split; [intros q Hq; by rewrite lookup_insert_ne|]. split; [done|]. split.
  - intros Hw Hfresh. by apply Session_ctor_consistent.
  - intros Hagree. by apply Session_ctor_registry_agrees.
Qed.

Lemma JS_new_constructs_witness :
  ∃ zDb w',
    JS_new (constructing 10%N a_NUL_b 5%N) true false None (mkCreateReply SQLITE_OK 7%N)
           1%N one_database =
      Some (Return (JsObject 1%N),
            mkAddon (Some (privileged_call 10%N a_NUL_b)) ((5 + 1) mod UINT64_MODULUS)%N,
            [sqlite3session_create 100%N zDb; SetFrozen 1%N (JsObject 10%N)],
            w') ∧
    (∀ name, JsString a_NUL_b = JsString name → zDb = Some (c_str name)) ∧
    (∀ name, JsString a_NUL_b = JsString name → contains_NUL name = false →
       zDb = Some name) ∧
    (IsString (JsString a_NUL_b) = false → zDb = c_str <$> None) ∧
    session_heap w' !! 1%N = Some (mkSession 10%N 7%N 5%N true) ∧
    registered w' 10%N 1%N ∧
    (∀ q, q ≠ 1%N → session_heap w' !! q = session_heap one_database !! q) ∧
    trace w' = trace one_database ++ [AddSession 10%N 1%N] ∧
    (consistent one_database → fresh_handle one_database 7%N → consistent w') ∧
    (registry_agrees one_database → registry_agrees w').
Proof.
  apply (JS_new_constructs one_database (constructing 10%N a_NUL_b 5%N)
           (privileged_call 10%N a_NUL_b) (mkDatabase true 100%N ∅) None
           (mkCreateReply SQLITE_OK 7%N) 1%N eq_refl eq_refl eq_refl eq_refl).
  - discriminate.
  - discriminate.
  - reflexivity.
Defined.

Example JS_new_schema_names :
  calls_made (JS_new (constructing 10%N a_NUL_b 5%N) true false None
                (mkCreateReply SQLITE_OK 7%N) 1%N one_database) =
    Some [sqlite3session_create 100%N (Some "a"); SetFrozen 1%N (JsObject 10%N)] ∧
  calls_made (JS_new (mkAddon (Some (mkInfo 10%N [JsObject 10%N; JsNumber 5])) 5%N)
                true false (Some "5") (mkCreateReply SQLITE_OK 7%N) 1%N one_database) =
    Some [sqlite3session_create 100%N (Some "5"); SetFrozen 1%N (JsObject 10%N)] ∧
  calls_made (JS_new (mkAddon (Some (mkInfo 10%N [JsObject 10%N; JsObject 3%N])) 5%N)
                true false None (mkCreateReply SQLITE_OK 7%N) 1%N one_database) =
    Some [sqlite3session_create 100%N None; SetFrozen 1%N (JsObject 10%N)].
Proof. repeat split. Qed.

(** X16: two sessions constructed one after the other on a connection get
    consecutive identities, the second one more than the first in 64-bit
    arithmetic.  Short of the wrap-around of the counter the earlier session
    therefore comes first in [Compare] and the two are never equivalent; at
    the wrap-around the later session gets identity 0. *)
Theorem successive_sessions_ordered w d dbo name1 name2 n converted1 converted2
    reply1 reply2 this1 this2 :
  database_heap w !! d = Some dbo →
  open dbo = true →
  d ≠ NULL →
  create_status reply1 = SQLITE_OK →
  create_handle reply1 ≠ NULL →
  create_status reply2 = SQLITE_OK →
  create_handle reply2 ≠ NULL →
  this1 ≠ this2 →
  ∃ calls1 w1 calls2 w2 s1 s2 n2,
    JS_new (constructing d name1 n) true false converted1 reply1 this1 w =
      Some (Return (JsObject this1), constructing d name1 (id s2), calls1, w1) ∧
    JS_new (constructing d name2 (id s2)) true false converted2 reply2 this2 w1 =
      Some (Return (JsObject this2), constructing d name2 n2, calls2, w2) ∧
    session_heap w2 !! this1 = Some s1 ∧
    session_heap w2 !! this2 = Some s2 ∧
    id s1 = n ∧
    id s2 = ((n + 1) mod UINT64_MODULUS)%N ∧
    ((n + 1 < UINT64_MODULUS)%N →
       Compare s1 s2 = true ∧ Compare s2 s1 = false ∧ ¬ equivalent s1 s2) ∧
    ((n + 1 = UINT64_MODULUS)%N → id s2 = 0%N).
Proof.
  intros Hd Hopen Hnd Hok1 Hnh1 Hok2 Hnh2 Hne.
  set (n1 := ((n + 1) mod UINT64_MODULUS)%N).
  pose proof (JS_new_world w (constructing d name1 n) (privileged_call d name1) dbo
                converted1 reply1 this1 eq_refl Hd Hopen Hok1 Hnd Hnh1) as Hfirst.
  cbn [privileged_call This next_id constructing] in Hfirst.
  match type of Hfirst with _ = Some (_, _, ?c, ?w1) =>
    pose proof (JS_new_world w1 (constructing d name2 n1) (privileged_call d name2)
                  (mkDatabase (open dbo) (db_handle dbo) (sessions dbo ∪ {[this1]}))
                  converted2 reply2 this2 eq_refl) as Hsecond;
    exists c, w1
  end.
  cbn [privileged_call This next_id constructing database_heap open db_handle] in Hsecond.
  rewrite lookup_insert_eq in Hsecond.
  specialize (Hsecond eq_refl Hopen Hok2 Hnd Hnh2).
  match type of Hsecond with _ = Some (_, _, ?c, ?w2) => exists c, w2 end.
  exists (mkSession d (create_handle reply1) n true),
         (mkSession d (create_handle reply2) n1 true).
  eexists.
  split; [exact Hfirst|]. split; [exact Hsecond|].
  cbn [session_heap id].
  split; [by rewrite lookup_insert_ne, lookup_insert_eq|].
  split; [by rewrite lookup_insert_eq|].
  split; [done|]. split; [done|]. split.
  - intros Hbound. unfold equivalent, Compare; cbn [id]. subst n1.
    rewrite N.mod_small by done.
    assert (Hlt : (n <? n + 1)%N = true) by (apply N.ltb_lt; lia).
    assert (Hge : (n + 1 <? n)%N = false) by (apply N.ltb_ge; lia).
    rewrite Hlt, Hge. split; [done|]. split; [done|]. by intros [? _].
  - intros Hwrap. subst n1. rewrite Hwrap. by apply N.Div0.mod_same.
Qed.

Lemma successive_sessions_ordered_witness :
  ∃ calls1 w1 calls2 w2 s1 s2 n2,
    JS_new (constructing 10%N "main" 0%N) true false None (mkCreateReply SQLITE_OK 7%N) 1%N
           one_database =
      Some (Return (JsObject 1%N), constructing 10%N "main" (id s2), calls1, w1) ∧
    JS_new (constructing 10%N "temp" (id s2)) true false None
           (mkCreateReply SQLITE_OK 8%N) 2%N w1 =
      Some (Return (JsObject 2%N), constructing 10%N "temp" n2, calls2, w2) ∧
    session_heap w2 !! 1%N = Some s1 ∧
    session_heap w2 !! 2%N = Some s2 ∧
    id s1 = 0%N ∧
    id s2 = ((0 + 1) mod UINT64_MODULUS)%N ∧
    ((0 + 1 < UINT64_MODULUS)%N →
       Compare s1 s2 = true ∧ Compare s2 s1 = false ∧ ¬ equivalent s1 s2) ∧
    ((0 + 1 = UINT64_MODULUS)%N → id s2 = 0%N).
Proof.
  apply (successive_sessions_ordered one_database 10%N (mkDatabase true 100%N ∅)
           "main" "temp" 0%N None None (mkCreateReply SQLITE_OK 7%N)
           (mkCreateReply SQLITE_OK 8%N) 1%N 2%N eq_refl eq_refl);
    discriminate || reflexivity.
Defined.
